(** * Cloud storage synchronisation of the digital planner

    A shallow embedding of the [CloudStorageSync] class (the version with
    folder support) and of the OAuth callback handlers of the planner,
    followed by the properties of the synchronisation engine that the
    specification states about them.

    Conventions of the embedding:
    - a JavaScript value that came out of [JSON.parse] or [response.json()]
      is a [json] tree; [undefined] is the [None] of [jsval := option json];
    - JavaScript numbers are modelled by [Z];
    - a string is kept as bytes: the UTF-8 encoding of the JavaScript
      string, in which a surrogate that is not part of a pair is encoded
      like any other code point; what JavaScript does per UTF-16 code
      unit or per code point is written out on these bytes;
    - an [async] method is a computation in the state-and-exception monad
      [M]; [await] is sequencing, a rejected promise is [Throw];
    - everything the browser or the remote provider decides ([fetch]
      answers, [JSON.parse] / [JSON.stringify], the storage quota, the
      wording of engine-raised errors) is a field of the class [Host], so
      that every theorem quantifies over it. *)

From stdpp Require Import gmap strings list fin_maps pretty.
From Stdlib Require Import ZArith Ascii String.

#[local] Set Warnings "-register-all".
#[local] Open Scope string_scope.
#[local] Open Scope Z_scope.
#[local] Open Scope list_scope.

(** ** JSON values *)

Inductive json : Type :=
  | JNull
  | JBool (b : bool)
  | JNum (n : Z)
  | JStr (s : string)
  | JArr (l : list json)
  | JObj (m : gmap string json).

(** [None] is JavaScript's [undefined]; [Some JNull] is [null]. *)
Abbreviation jsval := (option json).

Definition js_null : jsval := Some JNull.

(** ToBoolean. *)
Definition truthy (j : json) : bool :=
  match j with
  | JNull => false
  | JBool b => b
  | JNum n => negb (Z.eqb n 0)
  | JStr s => negb (String.eqb s "")
  | JArr _ | JObj _ => true
  end.

Definition js_truthy (v : jsval) : bool :=
  match v with
  | None => false
  | Some j => truthy j
  end.

(** [v === s] for a string [s]. *)
Definition strict_eq_str (v : jsval) (s : string) : bool :=
  match v with
  | Some (JStr t) => String.eqb t s
  | _ => false
  end.

(** ** Text *)

Definition byte (a : ascii) : N := N_of_ascii a.

(** A byte [10xxxxxx], which continues the encoding of a code point. *)
Definition continuation (a : ascii) : bool :=
  ((128 <=? byte a) && (byte a <=? 191))%N.

(** The encoding of a code point of the range U+0800 to U+FFFF. *)
Definition three_bytes (u : N) : string :=
  String (ascii_of_N (224 + u / 4096))
    (String (ascii_of_N (128 + (u / 64) mod 64))
       (String (ascii_of_N (128 + u mod 64)) EmptyString)).

(** The two UTF-16 code units of the code point that [a b c d] encodes,
    above U+FFFF: its high and its low surrogate. *)
Definition surrogates (a b c d : ascii) : string * string :=
  let point := ((byte a mod 8) * 262144 + (byte b mod 64) * 4096
                + (byte c mod 64) * 64 + byte d mod 64)%N in
  let offset := (point - 65536)%N in
  (three_bytes (55296 + offset / 1024), three_bytes (56320 + offset mod 1024)).

(** U+FFFD, the replacement character. *)
Definition replacement : string := three_bytes 65533.

(** The one-character strings of [s], as the elements that indexing or
    spreading a string yields: one for each UTF-16 code unit. A code point
    up to U+FFFF is one unit; a code point above it, encoded in four
    bytes, is two. *)
Fixpoint chars (s : string) : list json :=
  match s with
  | EmptyString => []
  | String a r =>
      let single := JStr (String a EmptyString) :: chars r in
      if (byte a <? 192)%N then single
      else
        match r with
        | String b r1 =>
            if negb (continuation b) then single
            else if (byte a <? 224)%N then
              JStr (String a (String b EmptyString)) :: chars r1
            else
              match r1 with
              | String c r2 =>
                  if negb (continuation c) then single
                  else if (byte a <? 240)%N then
                    JStr (String a (String b (String c EmptyString))) :: chars r2
                  else
                    match r2 with
                    | String d r3 =>
                        if negb (continuation d) then single
                        else
                          let (high, low) := surrogates a b c d in
                          JStr high :: JStr low :: chars r3
                    | EmptyString => single
                    end
              | EmptyString => single
              end
        | EmptyString => single
        end
  end.

(** Keys ["0"], ["1"], ... in front of the elements of an array. *)
Definition indexed (l : list json) : list (string * json) :=
  imap (fun i v => (pretty i, v)) l.

(** The own enumerable properties that the spread syntax [...v] copies. *)
Definition spread (j : json) : gmap string json :=
  match j with
  | JObj m => m
  | JArr l => list_to_map (indexed l)
  | JStr s => list_to_map (indexed (chars s))
  | JNull | JBool _ | JNum _ => ∅
  end.

(** [{ ...a, ...b }]: the properties of [a], overridden and extended by
    those of [b]. *)
Definition merge (a b : json) : json :=
  JObj (spread b ∪ spread a).

(** ** Errors and results *)

(** What a [throw] or a rejected promise carries. [Error msg] is
    [new Error(msg)] thrown by the planner itself; the other kinds are
    raised by the engine or the browser. *)
Inductive js_error : Type :=
  | Error (msg : string)
  | TypeError
  | SyntaxError
  | NetworkError
  | QuotaExceededError.

Inductive result (A : Type) : Type :=
  | Ok (a : A)
  | Throw (e : js_error).
Arguments Ok {A} a.
Arguments Throw {A} e.

Definition rbind {A B} (x : result A) (f : A → result B) : result B :=
  match x with
  | Ok a => f a
  | Throw e => Throw e
  end.

(** ** Reading properties of JSON values *)

(** [j.p] for a value that is neither [null] nor [undefined], for the
    property names the planner reads ([entries], [files], [id], [name],
    [type]): only an object carries them as data. (An array inherits a
    method called [entries]; it is a function of length 0 without a [find]
    method, so both readers of [entries] treat it as they treat a missing
    property.) *)
Definition prop (j : json) (p : string) : jsval :=
  match j with
  | JObj m => m !! p
  | _ => None
  end.

(** [v.p]: reading a property of [null] or [undefined] raises. *)
Definition get_prop (v : jsval) (p : string) : result jsval :=
  match v with
  | None | Some JNull => Throw TypeError
  | Some j => Ok (prop j p)
  end.

(** [v?.p]. *)
Definition get_prop_opt (v : jsval) (p : string) : jsval :=
  match v with
  | None | Some JNull => None
  | Some j => prop j p
  end.

(** [j[0]] for a value that is neither [null] nor [undefined]. *)
Definition index0 (j : json) : jsval :=
  match j with
  | JArr l => head l
  | JStr s => head (chars s)
  | JObj m => m !! "0"
  | _ => None
  end.

(** [v?.[0]]. *)
Definition index0_opt (v : jsval) : jsval :=
  match v with
  | None | Some JNull => None
  | Some j => index0 j
  end.

(** The callback of [entries.find] in [findBoxFile]:
    [item => item.name === fileName && item.type === 'file'],
    run over the items in order. *)
Fixpoint find_file (fileName : string) (items : list json) : result jsval :=
  match items with
  | [] => Ok None
  | item :: rest =>
      rbind (get_prop (Some item) "name") (fun name =>
        if strict_eq_str name fileName && strict_eq_str (prop item "type") "file"
        then Ok (Some item)
        else find_file fileName rest)
  end.

(** [entries.find(...)]: only an array has a [find] method. *)
Definition array_find (fileName : string) (entries : jsval) : result jsval :=
  match entries with
  | Some (JArr items) => find_file fileName items
  | _ => Throw TypeError
  end.

(** ** HTTP requests and responses *)

Inductive http_method : Type := GET | POST | PUT | PATCH.

(** The [q] parameter of a Google Drive file listing. *)
Inductive gdrive_query : Type :=
  | FolderNamed (name : string)
      (* name='..' and mimeType='application/vnd.google-apps.folder' and trashed=false *)
  | FileNamedIn (name : string) (folder : jsval).
      (* name='..' and '..' in parents and trashed=false *)

(** The URL templates of the class, with the values interpolated into
    them. *)
Inductive endpoint : Type :=
  | BoxSearch (query type : string)   (* api.box.com/2.0/search?query=..&type=.. *)
  | BoxFolders                        (* api.box.com/2.0/folders *)
  | BoxFolderItems (folder : jsval)   (* api.box.com/2.0/folders/../items?fields=id,name&limit=1000 *)
  | BoxUploadContent                  (* upload.box.com/api/2.0/files/content *)
  | BoxUploadVersion (file : jsval)   (* upload.box.com/api/2.0/files/../content *)
  | BoxFileContent (file : jsval)     (* api.box.com/2.0/files/../content *)
  | OneDriveContent (folder file : string)
                                      (* graph.microsoft.com/v1.0/me/drive/root:/../..:/content *)
  | GDriveFileList (q : gdrive_query) (* www.googleapis.com/drive/v3/files?q=.. *)
  | GDriveFiles                       (* www.googleapis.com/drive/v3/files *)
  | GDriveUpload                      (* www.googleapis.com/upload/drive/v3/files?uploadType=multipart *)
  | GDriveUploadTo (file : jsval)     (* www.googleapis.com/upload/drive/v3/files/..?uploadType=multipart *)
  | GDriveFileMedia (file : jsval).   (* www.googleapis.com/drive/v3/files/..?alt=media *)

(** Request bodies. Metadata stay structured; the content of a file is the
    text that [JSON.stringify] produced. *)
Inductive payload : Type :=
  | NoBody
  | JsonBody (j : json)
  | RawBody (content : string)
  | BoxForm (name : string) (parent : jsval) (content : string)
  | GDriveForm (name mimeType : string) (parents : list jsval) (content : string).

(** Every request of the class carries [Authorization: Bearer <token>]. *)
Record request : Type := Request {
  meth : http_method;
  target : endpoint;
  bearer : option string;
  body : payload;
}.

(** [json_body] is what [response.json()] resolves to; [None] when the
    body is not JSON. *)
Record response : Type := Response {
  status : Z;
  json_body : option json;
}.

(** [response.ok]. *)
Definition ok (r : response) : bool :=
  (200 <=? status r) && (status r <=? 299).

Inductive fetch_outcome : Type :=
  | Answer (r : response)
  | Rejected.

(** ** The host: browser and remote provider *)

Class Host : Type := {
  (** the provider's answer to a request, given the requests made so far *)
  respond : list request → request → fetch_outcome;
  JSON_parse : string → option json;
  JSON_stringify : json → string;
  (** does [localStorage.setItem(k, v)] exceed the quota? *)
  storage_full : gmap string string → string → string → bool;
  (** [x > 0] for a JSON value [x] that is not a number; [None] when the
      conversion to a number raises a [TypeError] *)
  coerced_gt_zero : json → option bool;
  (** the [message] of an error raised by the engine or the browser *)
  engine_message : js_error → string;
}.

(** ** State of one [CloudStorageSync] instance in its page *)

Record location : Type := Location {
  pathname : string;
  search : string;
  hash : string;
}.

Record state : Type := State {
  provider : option string;
  accessToken : option string;
  folderId : jsval;
  localStorage : gmap string string;
  window_location : location;
  log : list request;
}.

Definition set_provider (p : option string) (s : state) : state :=
  State p (accessToken s) (folderId s) (localStorage s) (window_location s) (log s).
Definition set_accessToken (t : option string) (s : state) : state :=
  State (provider s) t (folderId s) (localStorage s) (window_location s) (log s).
Definition set_folderId (f : jsval) (s : state) : state :=
  State (provider s) (accessToken s) f (localStorage s) (window_location s) (log s).
Definition set_localStorage (l : gmap string string) (s : state) : state :=
  State (provider s) (accessToken s) (folderId s) l (window_location s) (log s).
Definition set_location (l : location) (s : state) : state :=
  State (provider s) (accessToken s) (folderId s) (localStorage s) l (log s).
Definition record_request (r : request) (s : state) : state :=
  State (provider s) (accessToken s) (folderId s) (localStorage s)
        (window_location s) (log s ++ [r]).

(** The constructor. *)
Definition fileName : string := "planner-data.json".
Definition settingsFileName : string := "planner-settings.json".
Definition folderName : string := "Digital Planner".

Definition constructor (storage : gmap string string) (l : location) : state :=
  State None None js_null storage l [].

(** ** The monad of [async] methods *)

Definition M (A : Type) : Type := state → result A * state.

Definition ret {A} (a : A) : M A := fun s => (Ok a, s).
Definition throw {A} (e : js_error) : M A := fun s => (Throw e, s).
Definition bind {A B} (c : M A) (k : A → M B) : M B :=
  fun s =>
    match c s with
    | (Ok a, s') => k a s'
    | (Throw e, s') => (Throw e, s')
    end.
Definition get : M state := fun s => (Ok s, s).
Definition modify (f : state → state) : M unit := fun s => (Ok tt, f s).
Definition lift {A} (x : result A) : M A := fun s => (x, s).

(** [try { c } catch (error) { h error }]. *)
Definition try_catch {A} (c : M A) (h : js_error → M A) : M A :=
  fun s =>
    match c s with
    | (Ok a, s') => (Ok a, s')
    | (Throw e, s') => h e s'
    end.

Notation "x <- c ;; k" := (bind c (fun x => k))
  (at level 100, c at next level, right associativity).
Notation "c ;; k" := (bind c (fun _ => k))
  (at level 100, right associativity).

(** ** [URLSearchParams] *)

(** The pieces of [s] between the occurrences of [c]. *)
Fixpoint split_on (c : ascii) (s : string) : list string :=
  match s with
  | EmptyString => [EmptyString]
  | String a r =>
      if Ascii.eqb a c then EmptyString :: split_on c r
      else match split_on c r with
           | [] => [String a EmptyString]
           | piece :: pieces => String a piece :: pieces
           end
  end.

(** The text before and after the first occurrence of [c]; the second
    part is empty when [c] does not occur. *)
Fixpoint split_first (c : ascii) (s : string) : string * string :=
  match s with
  | EmptyString => (EmptyString, EmptyString)
  | String a r =>
      if Ascii.eqb a c then (EmptyString, r)
      else let (before, after) := split_first c r in (String a before, after)
  end.

Definition hex_value (a : ascii) : option N :=
  let n := N_of_ascii a in
  if ((48 <=? n) && (n <=? 57))%N then Some (n - 48)%N
  else if ((65 <=? n) && (n <=? 70))%N then Some (n - 55)%N
  else if ((97 <=? n) && (n <=? 102))%N then Some (n - 87)%N
  else None.

Fixpoint plus_to_space (s : string) : string :=
  match s with
  | EmptyString => EmptyString
  | String a r =>
      String (if Ascii.eqb a "+"%char then " "%char else a) (plus_to_space r)
  end.

Fixpoint percent_decode (s : string) : string :=
  match s with
  | EmptyString => EmptyString
  | String a r =>
      if Ascii.eqb a "%"%char then
        match r with
        | String h (String l r') =>
            match hex_value h, hex_value l with
            | Some x, Some y => String (ascii_of_N (16 * x + y)) (percent_decode r')
            | _, _ => String a (percent_decode r)
            end
        | _ => String a (percent_decode r)
        end
      else String a (percent_decode r)
  end.

(** A string as a sequence of Unicode scalar values: a surrogate that is
    not part of a pair becomes U+FFFD. *)
Fixpoint to_scalar_values (s : string) : string :=
  match s with
  | EmptyString => EmptyString
  | String a r =>
      match r with
      | String b (String c r2) =>
          if ((byte a =? 237) && (160 <=? byte b) && (byte b <=? 191))%N
             && continuation c
          then replacement +:+ to_scalar_values r2
          else String a (to_scalar_values r)
      | _ => String a (to_scalar_values r)
      end
  end.

(** The state of the UTF-8 decoder: between two code points, or inside
    one, with the bytes read so far, the number of bytes still needed and
    the bounds of the next byte. *)
Inductive utf8_state : Type :=
  | Utf8Between
  | Utf8Inside (seen : string) (needed : nat) (lower upper : N).

(** The decoder meets [a] between two code points: what it emits, and
    its next state. *)
Definition utf8_lead (a : ascii) : string * utf8_state :=
  let n := byte a in
  let inside := Utf8Inside (String a EmptyString) in
  if (n <=? 127)%N then (String a EmptyString, Utf8Between)
  else if ((194 <=? n) && (n <=? 223))%N then (EmptyString, inside 1%nat 128%N 191%N)
  else if (n =? 224)%N then (EmptyString, inside 2%nat 160%N 191%N)
  else if (n =? 237)%N then (EmptyString, inside 2%nat 128%N 159%N)
  else if ((225 <=? n) && (n <=? 239))%N then (EmptyString, inside 2%nat 128%N 191%N)
  else if (n =? 240)%N then (EmptyString, inside 3%nat 144%N 191%N)
  else if (n =? 244)%N then (EmptyString, inside 3%nat 128%N 143%N)
  else if ((241 <=? n) && (n <=? 243))%N then (EmptyString, inside 3%nat 128%N 191%N)
  else (replacement, Utf8Between).

(** UTF-8 decode without BOM: the bytes that encode a code point are
    kept; a byte that cannot start or continue one ends what came before
    it as U+FFFD and is read again; so does the end of the input. *)
Fixpoint utf8_decode_from (st : utf8_state) (s : string) : string :=
  match s with
  | EmptyString =>
      match st with
      | Utf8Between => EmptyString
      | Utf8Inside _ _ _ _ => replacement
      end
  | String a r =>
      match st with
      | Utf8Between =>
          let (out, st') := utf8_lead a in out +:+ utf8_decode_from st' r
      | Utf8Inside seen needed lower upper =>
          if ((lower <=? byte a) && (byte a <=? upper))%N then
            match needed with
            | S (S n) =>
                utf8_decode_from
                  (Utf8Inside (seen +:+ String a EmptyString) (S n) 128%N 191%N) r
            | _ => seen +:+ String a (utf8_decode_from Utf8Between r)
            end
          else
            let (out, st') := utf8_lead a in
            replacement +:+ out +:+ utf8_decode_from st' r
      end
  end.

Definition utf8_decode (s : string) : string := utf8_decode_from Utf8Between s.

(** A name or a value of the [application/x-www-form-urlencoded] parser:
    [+] is a space, percent escapes are bytes, the bytes are decoded as
    UTF-8. *)
Definition form_decode (s : string) : string :=
  utf8_decode (percent_decode (plus_to_space (to_scalar_values s))).

(** [new URLSearchParams(init)] for a string [init]: the list of
    name-value pairs of the [application/x-www-form-urlencoded] parser. *)
Definition URLSearchParams (init : string) : list (string * string) :=
  let input :=
    match init with
    | String a r => if Ascii.eqb a "?"%char then r else init
    | EmptyString => init
    end in
  omap (fun piece =>
          if String.eqb piece "" then None
          else let (name, value) := split_first "="%char piece in
               Some (form_decode name, form_decode value))
       (split_on "&"%char input).

(** [params.get(name)]: the first value of that name, or [null]. *)
Fixpoint params_get (params : list (string * string)) (name : string)
  : option string :=
  match params with
  | [] => None
  | (n, v) :: rest => if String.eqb n name then Some v else params_get rest name
  end.

(** ** The class [CloudStorageSync] *)

Section CloudStorageSync.

Context `{Host}.

(** [await fetch(url, options)]. The request is logged whether or not
    the promise is rejected. *)
Definition fetch (r : request) : M response :=
  fun s =>
    match respond (log s) r with
    | Answer a => (Ok a, record_request r s)
    | Rejected => (Throw NetworkError, record_request r s)
    end.

(** A fetch with [headers: { Authorization: `Bearer ${this.accessToken}` }]. *)
Definition fetch_authorized (m : http_method) (t : endpoint) (b : payload)
  : M response :=
  s <- get ;; fetch (Request m t (accessToken s) b).

(** [await response.json()]. *)
Definition json_of (r : response) : M json :=
  match json_body r with
  | Some j => ret j
  | None => throw SyntaxError
  end.

(** [j.length > 0]. *)
Definition length_gt_zero (j : json) : result bool :=
  match j with
  | JNull => Throw TypeError
  | JArr l => Ok (match l with [] => false | _ => true end)
  | JStr s => Ok (negb (String.eqb s ""))
  | JObj m =>
      match m !! "length" with
      | None => Ok false
      | Some (JNum n) => Ok (0 <? n)
      | Some x =>
          match coerced_gt_zero x with
          | Some b => Ok b
          | None => Throw TypeError
          end
      end
  | JBool _ | JNum _ => Ok false
  end.

(** [listing && listing.length > 0]. *)
Definition non_empty (listing : jsval) : result bool :=
  match listing with
  | None => Ok false
  | Some j => if truthy j then length_gt_zero j else Ok false
  end.

(** *** Box *)

Definition ensureBoxFolder : M jsval :=
  s <- get ;;
  if js_truthy (folderId s) then ret (folderId s) else
  (* Search for existing folder *)
  searchResponse <- fetch_authorized GET (BoxSearch folderName "folder") NoBody ;;
  found <- (if ok searchResponse then
              data <- json_of searchResponse ;;
              entries <- lift (get_prop (Some data) "entries") ;;
              some <- lift (non_empty entries) ;;
              if some then
                id <- lift (get_prop (index0_opt entries) "id") ;;
                modify (set_folderId id) ;;
                ret (Some id)
              else ret None
            else ret None) ;;
  match found with
  | Some id => ret id
  | None =>
      (* Create new folder if not found *)
      createResponse <-
        fetch_authorized POST BoxFolders
          (JsonBody (JObj {[ "name" := JStr folderName;
                             "parent" := JObj {[ "id" := JStr "0" ]} ]})) ;;
      if negb (ok createResponse) then
        throw (Error "Failed to create folder in Box")
      else
        folder <- json_of createResponse ;;
        id <- lift (get_prop (Some folder) "id") ;;
        modify (set_folderId id) ;;
        ret id
  end.

Definition findBoxFile (fileName : string) (folderId : jsval) : M jsval :=
  response <- fetch_authorized GET (BoxFolderItems folderId) NoBody ;;
  if negb (ok response) then ret js_null else
  data <- json_of response ;;
  entries <- lift (get_prop (Some data) "entries") ;;
  file <- lift (array_find fileName entries) ;;
  if js_truthy file then lift (get_prop file "id") else ret js_null.

Definition uploadToBox (data : json) (fileName : string) : M json :=
  folderId <- ensureBoxFolder ;;
  fileId <- findBoxFile fileName folderId ;;
  let content := JSON_stringify data in
  let url := if js_truthy fileId then BoxUploadVersion fileId
             else BoxUploadContent in
  response <- fetch_authorized POST url (BoxForm fileName folderId content) ;;
  if negb (ok response) then throw (Error "Failed to upload to Box")
  else json_of response.

Definition downloadFromBox (fileName : string) : M json :=
  folderId <- ensureBoxFolder ;;
  fileId <- findBoxFile fileName folderId ;;
  if negb (js_truthy fileId) then ret JNull else
  response <- fetch_authorized GET (BoxFileContent fileId) NoBody ;;
  if negb (ok response) then throw (Error "Failed to download from Box")
  else json_of response.

(** *** OneDrive *)

Definition uploadToOneDrive (data : json) (fileName : string) : M json :=
  let content := JSON_stringify data in
  response <-
    fetch_authorized PUT (OneDriveContent folderName fileName) (RawBody content) ;;
  if negb (ok response) then throw (Error "Failed to upload to OneDrive")
  else json_of response.

Definition downloadFromOneDrive (fileName : string) : M json :=
  response <- fetch_authorized GET (OneDriveContent folderName fileName) NoBody ;;
  if status response =? 404 then ret JNull else
  if negb (ok response) then throw (Error "Failed to download from OneDrive")
  else json_of response.

(** *** Google Drive *)

Definition ensureGDriveFolder : M jsval :=
  s <- get ;;
  if js_truthy (folderId s) then ret (folderId s) else
  (* Search for existing folder *)
  searchResponse <-
    fetch_authorized GET (GDriveFileList (FolderNamed folderName)) NoBody ;;
  found <- (if ok searchResponse then
              data <- json_of searchResponse ;;
              files <- lift (get_prop (Some data) "files") ;;
              some <- lift (non_empty files) ;;
              if some then
                id <- lift (get_prop (index0_opt files) "id") ;;
                modify (set_folderId id) ;;
                ret (Some id)
              else ret None
            else ret None) ;;
  match found with
  | Some id => ret id
  | None =>
      (* Create new folder *)
      createResponse <-
        fetch_authorized POST GDriveFiles
          (JsonBody (JObj {[ "name" := JStr folderName;
                             "mimeType" := JStr "application/vnd.google-apps.folder" ]})) ;;
      if negb (ok createResponse) then
        throw (Error "Failed to create folder in Google Drive")
      else
        folder <- json_of createResponse ;;
        id <- lift (get_prop (Some folder) "id") ;;
        modify (set_folderId id) ;;
        ret id
  end.

Definition findGDriveFile (fileName : string) (folderId : jsval) : M jsval :=
  response <-
    fetch_authorized GET (GDriveFileList (FileNamedIn fileName folderId)) NoBody ;;
  if negb (ok response) then ret js_null else
  data <- json_of response ;;
  files <- lift (get_prop (Some data) "files") ;;
  (* data.files?.[0]?.id || null *)
  let id := get_prop_opt (index0_opt files) "id" in
  ret (if js_truthy id then id else js_null).

Definition uploadToGDrive (data : json) (fileName : string) : M json :=
  folderId <- ensureGDriveFolder ;;
  fileId <- findGDriveFile fileName folderId ;;
  let content := JSON_stringify data in
  let url := if js_truthy fileId then GDriveUploadTo fileId else GDriveUpload in
  response <-
    fetch_authorized (if js_truthy fileId then PATCH else POST) url
      (GDriveForm fileName "application/json" [folderId] content) ;;
  if negb (ok response) then throw (Error "Failed to upload to Google Drive")
  else json_of response.

Definition downloadFromGDrive (fileName : string) : M json :=
  folderId <- ensureGDriveFolder ;;
  fileId <- findGDriveFile fileName folderId ;;
  if negb (js_truthy fileId) then ret JNull else
  response <- fetch_authorized GET (GDriveFileMedia fileId) NoBody ;;
  if negb (ok response) then throw (Error "Failed to download from Google Drive")
  else json_of response.

(** *** Provider dispatch *)

Definition is_provider (p : option string) (name : string) : bool :=
  match p with
  | Some q => String.eqb q name
  | None => false
  end.

Definition uploadData (data : json) (isSettings : bool) : M json :=
  let fileName := if isSettings then settingsFileName else fileName in
  s <- get ;;
  if is_provider (provider s) "box" then uploadToBox data fileName
  else if is_provider (provider s) "onedrive" then uploadToOneDrive data fileName
  else if is_provider (provider s) "gdrive" then uploadToGDrive data fileName
  else throw (Error "No provider configured").

Definition downloadData (isSettings : bool) : M json :=
  let fileName := if isSettings then settingsFileName else fileName in
  s <- get ;;
  if is_provider (provider s) "box" then downloadFromBox fileName
  else if is_provider (provider s) "onedrive" then downloadFromOneDrive fileName
  else if is_provider (provider s) "gdrive" then downloadFromGDrive fileName
  else throw (Error "No provider configured").

(** *** [localStorage] *)

Definition getItem (k : string) : M (option string) :=
  s <- get ;; ret (localStorage s !! k).

Definition setItem (k v : string) : M unit :=
  fun s =>
    if storage_full (localStorage s) k v then (Throw QuotaExceededError, s)
    else (Ok tt, set_localStorage (<[k := v]> (localStorage s)) s).

Definition removeItem (k : string) : M unit :=
  modify (fun s => set_localStorage (delete k (localStorage s)) s).

(** [`${this.provider}_access_token`]. *)
Definition token_key (p : option string) : string :=
  default "null" p +:+ "_access_token".

Definition data_key : string := "advanced-planner-data-v4".
Definition settings_key : string := "planner-settings".

(** [text || '{}']. *)
Definition or_empty_object (text : option string) : string :=
  match text with
  | Some t => if String.eqb t "" then "{}" else t
  | None => "{}"
  end.

(** [JSON.parse(text)]; the text of the literal ['{}'] is the empty
    object whatever the host's parser is. *)
Definition parse (text : string) : result json :=
  if String.eqb text "{}" then Ok (JObj ∅)
  else match JSON_parse text with
       | Some j => Ok j
       | None => Throw SyntaxError
       end.

(** *** Synchronisation *)

(** [error.message]: the text for [new Error(msg)]; engine-raised errors
    are worded by the engine. *)
Definition message (e : js_error) : string :=
  match e with
  | Error msg => msg
  | _ => engine_message e
  end.

(** [{ success: true, data }] and [{ success: false, error }]. *)
Inductive sync_result : Type :=
  | Success (data : json)
  | Failure (error : string).

(** The [try] block of [syncData]. *)
Definition syncData_try : M sync_result :=
  (* Download from cloud *)
  cloudData <- downloadData false ;;
  cloudSettings <- downloadData true ;;
  (* Get local data *)
  localDataText <- getItem data_key ;;
  localData <- lift (parse (or_empty_object localDataText)) ;;
  localSettingsText <- getItem settings_key ;;
  localSettings <- lift (parse (or_empty_object localSettingsText)) ;;
  (* Merge data (cloud takes precedence for conflicts) *)
  let mergedData := merge localData cloudData in
  let mergedSettings := merge localSettings cloudSettings in
  (* Save merged data locally *)
  setItem data_key (JSON_stringify mergedData) ;;
  setItem settings_key (JSON_stringify mergedSettings) ;;
  (* Upload to cloud *)
  uploadData mergedData false ;;
  uploadData mergedSettings true ;;
  ret (Success mergedData).

Definition syncData : M sync_result :=
  try_catch syncData_try (fun error => ret (Failure (message error))).

(** *** Authentication state *)

Definition initialize (p : string) : M bool :=
  modify (set_provider (Some p)) ;;
  savedToken <- getItem (token_key (Some p)) ;;
  match savedToken with
  | Some t =>
      if negb (String.eqb t "") then
        modify (set_accessToken (Some t)) ;; ret true
      else ret false
  | None => ret false
  end.

(** [window.history.replaceState({}, document.title, window.location.pathname)]:
    the address keeps its path and loses query and fragment. *)
Definition replaceState_pathname : M unit :=
  modify (fun s =>
    set_location (Location (pathname (window_location s)) "" "") s).

(** [str.substring(1)]: the string without its first UTF-16 code unit.
    When the string starts with a code point above U+FFFF, the low
    surrogate of that code point stays. *)
Definition substring1 (str : string) : string :=
  match str with
  | EmptyString => EmptyString
  | String a r =>
      if (byte a <? 192)%N then r
      else
        match r with
        | String b r1 =>
            if negb (continuation b) then r
            else if (byte a <? 224)%N then r1
            else
              match r1 with
              | String c r2 =>
                  if negb (continuation c) then r
                  else if (byte a <? 240)%N then r2
                  else
                    match r2 with
                    | String d r3 =>
                        if negb (continuation d) then r
                        else (surrogates a b c d).2 +:+ r3
                    | EmptyString => r
                    end
              | EmptyString => r
              end
        | EmptyString => r
        end
  end.

Definition handleAuthCallback : M bool :=
  s <- get ;;
  let hash := substring1 (hash (window_location s)) in
  let params := URLSearchParams hash in
  let accessToken := params_get params "access_token" in
  match accessToken with
  | Some t =>
      if negb (String.eqb t "") then
        modify (set_accessToken (Some t)) ;;
        setItem (token_key (provider s)) t ;;
        (* Clean URL *)
        replaceState_pathname ;;
        ret true
      else ret false
  | None => ret false
  end.

Definition disconnect : M unit :=
  s <- get ;;
  removeItem (token_key (provider s)) ;;
  modify (set_accessToken None) ;;
  modify (set_folderId js_null).

End CloudStorageSync.

(** ** The callback handler of [GoogleCalendar]

    The calendar module has a handler of the same name; unlike the one of
    [CloudStorageSync] it reads [expires_in]. It keeps its token in a
    field of its own, which the [accessToken] field stands for here. *)

(** The white space and line terminators of one byte: U+0009 to U+000D
    and U+0020. *)
Definition is_space (a : ascii) : bool :=
  let n := N_of_ascii a in
  (((9 <=? n) && (n <=? 13)) || (n =? 32))%N.

(** U+00A0. *)
Definition is_space2 (a b : ascii) : bool :=
  ((byte a =? 194) && (byte b =? 160))%N.

(** U+1680, U+2000 to U+200A, U+2028, U+2029, U+202F, U+205F, U+3000 and
    U+FEFF. *)
Definition is_space3 (a b c : ascii) : bool :=
  let '(x, y, z) := (byte a, byte b, byte c) in
  ((x =? 225) && (y =? 154) && (z =? 128)
   || (x =? 226) && (y =? 128)
      && ((128 <=? z) && (z <=? 138) || (z =? 168) || (z =? 169) || (z =? 175))
   || (x =? 226) && (y =? 129) && (z =? 159)
   || (x =? 227) && (y =? 128) && (z =? 128)
   || (x =? 239) && (y =? 187) && (z =? 191))%N.

(** The string without its leading white space and line terminators. *)
Fixpoint skip_spaces (s : string) : string :=
  match s with
  | String a r =>
      if is_space a then skip_spaces r
      else if (byte a <? 128)%N then s
      else
        match r with
        | String b r1 =>
            if is_space2 a b then skip_spaces r1
            else
              match r1 with
              | String c r2 => if is_space3 a b c then skip_spaces r2 else s
              | EmptyString => s
              end
        | EmptyString => s
        end
  | EmptyString => s
  end.

Definition digit_value (radix : N) (a : ascii) : option N :=
  match hex_value a with
  | Some d => if (d <? radix)%N then Some d else None
  | None => None
  end.

(** The value of the longest prefix of digits, [None] when it is empty. *)
Fixpoint leading_digits (radix : N) (acc : option N) (s : string) : option N :=
  match s with
  | String a r =>
      match digit_value radix a with
      | Some d => leading_digits radix (Some (radix * default 0%N acc + d)%N) r
      | None => acc
      end
  | EmptyString => acc
  end.

(** [parseInt(s)]; [None] is [NaN]. *)
Definition parseInt (s : string) : option Z :=
  let s := skip_spaces s in
  let '(sign, s) :=
    match s with
    | String a r =>
        if Ascii.eqb a "-"%char then (-1, r)
        else if Ascii.eqb a "+"%char then (1, r)
        else (1, s)
    | EmptyString => (1, s)
    end in
  let '(radix, s) :=
    match s with
    | String a (String b r) =>
        if Ascii.eqb a "0"%char && (Ascii.eqb b "x"%char || Ascii.eqb b "X"%char)
        then (16%N, r) else (10%N, s)
    | _ => (10%N, s)
    end in
  match leading_digits radix None s with
  | Some n => Some (sign * Z.of_N n)
  | None => None
  end.

Module GoogleCalendar.
Section GoogleCalendar.

Context `{Host}.

(** [now] is the value of [Date.now()], in milliseconds. *)
Definition handleAuthCallback (now : Z) : M bool :=
  s <- get ;;
  let hash := substring1 (hash (window_location s)) in
  if String.eqb hash "" then ret false else
  let params := URLSearchParams hash in
  let accessToken := params_get params "access_token" in
  let expiresIn := params_get params "expires_in" in
  match accessToken with
  | Some t =>
      if negb (String.eqb t "") then
        modify (set_accessToken (Some t)) ;;
        setItem "google_calendar_access_token" t ;;
        match expiresIn with
        | Some e =>
            if negb (String.eqb e "") then
              (* Date.now() + parseInt(expiresIn) * 1000 *)
              let expiry :=
                match parseInt e with
                | Some n => pretty (now + n * 1000)
                | None => "NaN"
                end in
              setItem "google_calendar_token_expiry" expiry
            else ret tt
        | None => ret tt
        end ;;
        replaceState_pathname ;;
        ret true
      else ret false
  | None => ret false
  end.

End GoogleCalendar.
End GoogleCalendar.

(** ** A reference provider

    A storage provider that behaves as the three REST dialects document:
    folders and files get fresh identifiers, listings show what was
    created, a file's content is what was last uploaded. It is the remote
    side of the end-to-end scenarios. *)

Record remote_folder : Type := RemoteFolder {
  folder_id : string;
  folder_name : string;
}.

Record remote_file : Type := RemoteFile {
  file_id : string;
  file_name : string;
  file_parent : string;
  file_content : string;
}.

Record remote : Type := Remote {
  folders : list remote_folder;
  files : list remote_file;
  next_id : nat;
}.

Definition remote_empty : remote := Remote [] [] 1.

Definition fresh_id (st : remote) : string := pretty (next_id st).

Definition folder_entry (f : remote_folder) : json :=
  JObj {[ "type" := JStr "folder";
          "id" := JStr (folder_id f);
          "name" := JStr (folder_name f) ]}.

Definition file_entry (f : remote_file) : json :=
  JObj {[ "type" := JStr "file";
          "id" := JStr (file_id f);
          "name" := JStr (file_name f) ]}.

Definition folders_named (name : string) (st : remote) : list remote_folder :=
  List.filter (fun f => String.eqb (folder_name f) name) (folders st).

Definition folder_exists (id : jsval) (st : remote) : bool :=
  existsb (fun f => strict_eq_str id (folder_id f)) (folders st).

Definition files_in (parent : jsval) (st : remote) : list remote_file :=
  List.filter (fun f => strict_eq_str parent (file_parent f)) (files st).

Definition file_with_id (id : jsval) (st : remote) : option remote_file :=
  List.find (fun f => strict_eq_str id (file_id f)) (files st).

Definition add_folder (name : string) (st : remote) : remote :=
  Remote (folders st ++ [RemoteFolder (fresh_id st) name]) (files st)
         (S (next_id st)).

Definition add_file (name parent content : string) (st : remote) : remote :=
  Remote (folders st) (files st ++ [RemoteFile (fresh_id st) name parent content])
         (S (next_id st)).

Definition set_content (id : jsval) (content : string) (st : remote) : remote :=
  Remote (folders st)
         (map (fun f => if strict_eq_str id (file_id f)
                        then RemoteFile (file_id f) (file_name f) (file_parent f) content
                        else f) (files st))
         (next_id st).

Definition id_text (v : jsval) : option string :=
  match v with
  | Some (JStr t) => Some t
  | _ => None
  end.

Definition not_found : response := Response 404 None.
Definition bad_request : response := Response 400 None.

Section ReferenceProvider.

Variable parse : string → option json.

(** One request against the provider: the new remote state and the
    answer. *)
Definition remote_step (st : remote) (r : request) : remote * response :=
  match meth r, target r, body r with
  (* Box *)
  | GET, BoxSearch query kind, _ =>
      let hits := if String.eqb kind "folder" then folders_named query st else [] in
      (st, Response 200 (Some (JObj {[ "entries" := JArr (folder_entry <$> hits) ]})))
  | POST, BoxFolders, JsonBody j =>
      match prop j "name" with
      | Some (JStr name) =>
          match folders_named name st with
          | [] => (add_folder name st,
                   Response 201 (Some (folder_entry (RemoteFolder (fresh_id st) name))))
          | _ :: _ => (st, Response 409 None)
          end
      | _ => (st, bad_request)
      end
  | GET, BoxFolderItems folder, _ =>
      if folder_exists folder st then
        (st, Response 200
               (Some (JObj {[ "entries" := JArr (file_entry <$> files_in folder st) ]})))
      else (st, not_found)
  | POST, BoxUploadContent, BoxForm name parent content =>
      match id_text parent with
      | Some p =>
          if folder_exists parent st then
            if existsb (fun f => String.eqb (file_name f) name) (files_in parent st)
            then (st, Response 409 None)
            else (add_file name p content st,
                  Response 201
                    (Some (JObj {[ "entries" :=
                       JArr [file_entry (RemoteFile (fresh_id st) name p content)] ]})))
          else (st, not_found)
      | None => (st, bad_request)
      end
  | POST, BoxUploadVersion file, BoxForm _ _ content =>
      match file_with_id file st with
      | Some f => (set_content file content st,
                   Response 200 (Some (JObj {[ "entries" := JArr [file_entry f] ]})))
      | None => (st, not_found)
      end
  | GET, BoxFileContent file, _ =>
      match file_with_id file st with
      | Some f => (st, Response 200 (parse (file_content f)))
      | None => (st, not_found)
      end
  (* OneDrive: files are addressed by folder name and file name *)
  | PUT, OneDriveContent folder name, RawBody content =>
      match List.find (fun f => String.eqb (file_parent f) folder
                                && String.eqb (file_name f) name) (files st) with
      | Some f => (set_content (Some (JStr (file_id f))) content st,
                   Response 200 (Some (file_entry f)))
      | None => (add_file name folder content st,
                 Response 201
                   (Some (file_entry (RemoteFile (fresh_id st) name folder content))))
      end
  | GET, OneDriveContent folder name, _ =>
      match List.find (fun f => String.eqb (file_parent f) folder
                                && String.eqb (file_name f) name) (files st) with
      | Some f => (st, Response 200 (parse (file_content f)))
      | None => (st, not_found)
      end
  (* Google Drive *)
  | GET, GDriveFileList (FolderNamed name), _ =>
      (st, Response 200
             (Some (JObj {[ "files" := JArr (folder_entry <$> folders_named name st) ]})))
  | GET, GDriveFileList (FileNamedIn name folder), _ =>
      (st, Response 200
             (Some (JObj {[ "files" :=
                JArr (file_entry <$>
                        List.filter (fun f => String.eqb (file_name f) name)
                                    (files_in folder st)) ]})))
  | POST, GDriveFiles, JsonBody j =>
      match prop j "name" with
      | Some (JStr name) =>
          (add_folder name st,
           Response 200 (Some (folder_entry (RemoteFolder (fresh_id st) name))))
      | _ => (st, bad_request)
      end
  | POST, GDriveUpload, GDriveForm name _ [parent] content =>
      match id_text parent with
      | Some p =>
          if folder_exists parent st then
            (add_file name p content st,
             Response 200 (Some (file_entry (RemoteFile (fresh_id st) name p content))))
          else (st, not_found)
      | None => (st, bad_request)
      end
  | PATCH, GDriveUploadTo file, GDriveForm _ _ _ content =>
      match file_with_id file st with
      | Some f => (set_content file content st, Response 200 (Some (file_entry f)))
      | None => (st, not_found)
      end
  | GET, GDriveFileMedia file, _ =>
      match file_with_id file st with
      | Some f => (st, Response 200 (parse (file_content f)))
      | None => (st, not_found)
      end
  | _, _, _ => (st, bad_request)
  end.

(** The remote state after a history of requests. *)
Definition remote_after (history : list request) : remote :=
  fold_left (fun st r => fst (remote_step st r)) history remote_empty.

Definition reference_respond (history : list request) (r : request)
  : fetch_outcome :=
  Answer (snd (remote_step (remote_after history) r)).

End ReferenceProvider.

(** The host [base] with the reference provider as its remote side. *)
Definition with_reference_provider (base : Host) : Host := {|
  respond := reference_respond (@JSON_parse base);
  JSON_parse := @JSON_parse base;
  JSON_stringify := @JSON_stringify base;
  storage_full := @storage_full base;
  coerced_gt_zero := @coerced_gt_zero base;
  engine_message := @engine_message base;
|}.

(** A host whose provider answers every request with the same response. *)
Definition constant_host (r : response) : Host := {|
  respond := fun _ _ => Answer r;
  JSON_parse := fun _ => None;
  JSON_stringify := fun _ => "{}";
  storage_full := fun _ _ _ => false;
  coerced_gt_zero := fun _ => Some false;
  engine_message := fun _ => "";
|}.

(** ** Pages and hosts of the scenarios *)

(** A host without a provider behind it: every request is answered 500. *)
Definition offline_host : Host := constant_host (Response 500 None).

Definition reference_host : Host := with_reference_provider offline_host.

(** The planner's page after [initialize(p)] found [token] in
    [localStorage]; nothing has been requested yet. *)
Definition connected (p token : string) : state :=
  State (Some p) (Some token) js_null {[ token_key (Some p) := token ]}
        (Location "/digital-planner/" "" "") [].

(** A printer for documents without nesting, and the parser that knows
    the texts of a given list of documents: the codec of the scenarios. *)
Definition quote : string := String (ascii_of_nat 34) EmptyString.

Definition atom_text (j : json) : string :=
  match j with
  | JNull => "null"
  | JBool true => "true"
  | JBool false => "false"
  | JNum n => pretty n
  | JStr t => quote +:+ t +:+ quote
  | JArr _ => "[]"
  | JObj _ => "{}"
  end.

Definition flat_stringify (j : json) : string :=
  match j with
  | JObj m =>
      "{" +:+ String.concat ","
                ((fun kv => quote +:+ kv.1 +:+ quote +:+ ":" +:+ atom_text kv.2)
                   <$> map_to_list m) +:+ "}"
  | _ => atom_text j
  end.

Definition table_parse (documents : list json) (text : string) : option json :=
  List.find (fun d => String.eqb (flat_stringify d) text) documents.

(** The documents of the specification's example. *)
Definition local_document : json := JObj {[ "a" := JNum 1; "b" := JNum 2 ]}.
Definition remote_document : json := JObj {[ "b" := JNum 3; "c" := JNum 4 ]}.
Definition merged_document : json :=
  JObj {[ "a" := JNum 1; "b" := JNum 3; "c" := JNum 4 ]}.

(** A host with that codec and no provider behind it. *)
Definition desk_codec : Host := {|
  respond := fun _ _ => Answer (Response 500 None);
  JSON_parse := table_parse [local_document; remote_document; merged_document];
  JSON_stringify := flat_stringify;
  storage_full := fun _ _ _ => false;
  coerced_gt_zero := fun _ => Some false;
  engine_message := fun _ => "";
|}.

Definition desk_host : Host := with_reference_provider desk_codec.

Definition desk_page : location := Location "/digital-planner/" "" "".

(** A [localStorage] that holds the local document and no settings. *)
Definition desk_storage : gmap string string :=
  {[ data_key := flat_stringify local_document ]}.

(** A provider that accepts every request and answers with an empty
    object, so that a created folder comes back without an [id]. *)
Definition anonymous_host : Host := constant_host (Response 200 (Some (JObj ∅))).

(** A host whose provider rejects the token: every request is answered 401. *)
Definition unauthorized_host : Host := constant_host (Response 401 None).

(** A provider on which a listed file is gone when its content is fetched:
    listings show the folder and the file, every other request is
    answered 404. *)
Definition vanishing_host : Host := {|
  respond := fun _ r =>
    match target r with
    | BoxSearch _ _ =>
        Answer (Response 200 (Some (JObj {[ "entries" :=
          JArr [folder_entry (RemoteFolder "1" folderName)] ]})))
    | BoxFolderItems _ =>
        Answer (Response 200 (Some (JObj {[ "entries" :=
          JArr [file_entry (RemoteFile "2" fileName "1" "")] ]})))
    | GDriveFileList (FolderNamed _) =>
        Answer (Response 200 (Some (JObj {[ "files" :=
          JArr [folder_entry (RemoteFolder "1" folderName)] ]})))
    | GDriveFileList (FileNamedIn _ _) =>
        Answer (Response 200 (Some (JObj {[ "files" :=
          JArr [file_entry (RemoteFile "2" fileName "1" "")] ]})))
    | _ => Answer (Response 404 None)
    end;
  JSON_parse := fun _ => None;
  JSON_stringify := fun _ => "{}";
  storage_full := fun _ _ _ => false;
  coerced_gt_zero := fun _ => Some false;
  engine_message := fun _ => "";
|}.

(** A provider that has no file and accepts none: reads are answered 404,
    writes 500. *)
Definition read_only_host : Host := {|
  respond := fun _ r =>
    match meth r with
    | GET => Answer (Response 404 None)
    | _ => Answer (Response 500 None)
    end;
  JSON_parse := table_parse [local_document; remote_document; merged_document];
  JSON_stringify := flat_stringify;
  storage_full := fun _ _ _ => false;
  coerced_gt_zero := fun _ => Some false;
  engine_message := fun _ => "";
|}.

(** A provider that has no file and accepts every write, behind a
    [localStorage] that has no room for the settings. *)
Definition cramped_host : Host := {|
  respond := fun _ r =>
    match meth r with
    | GET => Answer (Response 404 None)
    | _ => Answer (Response 200 (Some (JObj ∅)))
    end;
  JSON_parse := table_parse [local_document; remote_document; merged_document];
  JSON_stringify := flat_stringify;
  storage_full := fun _ k _ => String.eqb k settings_key;
  coerced_gt_zero := fun _ => Some false;
  engine_message := fun _ => "";
|}.

(** A provider that has no file and accepts one write, then no more. *)
Definition write_once_host : Host := {|
  respond := fun sent r =>
    match meth r with
    | GET => Answer (Response 404 None)
    | _ =>
        if existsb (fun q => match meth q with PUT => true | _ => false end) sent
        then Answer (Response 500 None)
        else Answer (Response 200 (Some (JObj ∅)))
    end;
  JSON_parse := table_parse [local_document; remote_document; merged_document];
  JSON_stringify := flat_stringify;
  storage_full := fun _ _ _ => false;
  coerced_gt_zero := fun _ => Some false;
  engine_message := fun _ => "";
|}.

(** The page the authorization endpoint redirects to, with the given
    [location.hash]; provider [p] is selected and no token is held. *)
Definition callback_page (p : string) (fragment : string) : state :=
  State (Some p) None js_null ∅ (Location "/digital-planner/" "" fragment) [].

(** The lookup requests of [findBoxFile] and [findGDriveFile]. *)
Definition box_listing (folder : jsval) (s : state) : request :=
  Request GET (BoxFolderItems folder) (accessToken s) NoBody.

Definition gdrive_listing (name : string) (folder : jsval) (s : state) : request :=
  Request GET (GDriveFileList (FileNamedIn name folder)) (accessToken s) NoBody.

(** ** Predicates used by the statements *)

(** What an adapter operation leaves alone: the provider selection, the
    credential (in the instance and in [localStorage]) and the address of
    the page; the log of requests only grows. *)
Definition frame (s s' : state) : Prop :=
  provider s' = provider s ∧
  accessToken s' = accessToken s ∧
  localStorage s' = localStorage s ∧
  window_location s' = window_location s ∧
  ∃ issued, log s' = log s ++ issued.

(** The messages of the errors that the class itself throws. *)
Definition failure_messages : list string :=
  [ "Failed to create folder in Box";
    "Failed to upload to Box";
    "Failed to download from Box";
    "Failed to upload to OneDrive";
    "Failed to download from OneDrive";
    "Failed to create folder in Google Drive";
    "Failed to upload to Google Drive";
    "Failed to download from Google Drive";
    "No provider configured" ].

Definition generic_failure (e : js_error) : Prop :=
  match e with
  | Error msg => msg ∈ failure_messages
  | _ => True
  end.

(** [c] keeps the frame and throws nothing but generic failures. *)
Definition obeys `{Host} {A} (c : M A) : Prop :=
  ∀ s r s', c s = (r, s') → frame s s' ∧ ∀ e, r = Throw e → generic_failure e.

(** Two answers of which the adapters read the same: they have the same
    body, and the same status or two failure statuses other than 404. *)
Definition alike (a b : response) : Prop :=
  json_body a = json_body b ∧
  (status a = status b ∨
   (ok a = false ∧ ok b = false ∧ status a ≠ 404 ∧ status b ≠ 404)).

Definition alike_outcome (a b : fetch_outcome) : Prop :=
  match a, b with
  | Answer x, Answer y => alike x y
  | Rejected, Rejected => True
  | _, _ => False
  end.

(** The host [h] with another provider behind it. *)
Definition with_provider (answers : list request → request → fetch_outcome)
    (h : Host) : Host := {|
  respond := answers;
  JSON_parse := @JSON_parse h;
  JSON_stringify := @JSON_stringify h;
  storage_full := @storage_full h;
  coerced_gt_zero := @coerced_gt_zero h;
  engine_message := @engine_message h;
|}.

(** An answer with the status [to] where it had the status [from]. *)
Definition restatus (from to : Z) (o : fetch_outcome) : fetch_outcome :=
  match o with
  | Answer r => if status r =? from then Answer (Response to (json_body r)) else o
  | Rejected => Rejected
  end.

(** The provider of [h] with every answer [from] turned into [to]. *)
Definition answering_instead (from to : Z) (h : Host) : Host :=
  with_provider (fun l r => restatus from to (@respond h l r)) h.

(** Two computations that run alike from every state. *)
Definition same {A} (c c' : M A) : Prop := ∀ s, c s = c' s.

(** Two requests that end in the same state, with answers that are
    [alike] or with the same error. *)
Definition same_answer (c c' : M response) : Prop :=
  ∀ s, match c s, c' s with
       | (Ok a, s1), (Ok b, s2) => alike a b ∧ s1 = s2
       | (Throw e, s1), (Throw e', s2) => e = e' ∧ s1 = s2
       | _, _ => False
       end.

(** A request that creates a folder. *)
Definition is_folder_creation (r : request) : bool :=
  match meth r, target r with
  | POST, BoxFolders | POST, GDriveFiles => true
  | _, _ => false
  end.

(** A request that creates a file, and one that overwrites a file. *)
Definition is_file_creation (r : request) : bool :=
  match meth r, target r with
  | POST, BoxUploadContent | POST, GDriveUpload => true
  | _, _ => false
  end.

Definition is_file_update (r : request) : bool :=
  match meth r, target r with
  | POST, BoxUploadVersion _ | PATCH, GDriveUploadTo _ => true
  | _, _ => false
  end.

(** The credential of the selected provider is gone from the instance
    and from [localStorage]. *)
Definition credential_purged (s : state) : Prop :=
  accessToken s = None ∧ localStorage s !! token_key (provider s) = None.

(** The state in which the uploads of [syncData] start: both merged values
    are in [localStorage]. *)
Definition locally_written `{Host} (mergedData mergedSettings : json) (s : state)
  : state :=
  set_localStorage
    (<[settings_key := JSON_stringify mergedSettings]>
       (<[data_key := JSON_stringify mergedData]> (localStorage s))) s.

(** The state between the two local writes of [syncData]: the merged data
    are in [localStorage], the settings are not yet. *)
Definition data_written `{Host} (mergedData : json) (s : state) : state :=
  set_localStorage
    (<[data_key := JSON_stringify mergedData]> (localStorage s)) s.

(** Name and content of the file that a request body uploads. *)
Definition uploaded (r : request) : option (string * string) :=
  match body r with
  | BoxForm name _ content | GDriveForm name _ _ content => Some (name, content)
  | _ => None
  end.

(** The planner's page on first use: provider [p] selected, nothing
    resolved, nothing requested. *)
Definition first_use (p : string) (token : option string)
    (storage : gmap string string) (l : location) : state :=
  State (Some p) token js_null storage l [].

(** ** Relations between the start and the end of a run *)

(** Every run of [c] relates its final state to its initial state by [R]. *)
Definition along `{Host} {A} (R : state → state → Prop) (c : M A) : Prop :=
  ∀ s r s', c s = (r, s') → R s s'.

(** The requests issued between [s] and [s'] carry the token that the
    instance holds, and the instance still holds it. *)
Definition authorized (s s' : state) : Prop :=
  accessToken s' = accessToken s ∧
  ∃ issued, log s' = log s ++ issued ∧
            Forall (fun r => bearer r = accessToken s) issued.

(** What a synchronisation may change: the folder cache, the two planner
    entries of [localStorage], and the log, which only grows. *)
Definition sync_footprint (s s' : state) : Prop :=
  provider s' = provider s ∧
  accessToken s' = accessToken s ∧
  window_location s' = window_location s ∧
  (∀ k, k ≠ data_key → k ≠ settings_key →
        localStorage s' !! k = localStorage s !! k) ∧
  ∃ issued, log s' = log s ++ issued.

(** [item] is the entry that [findBoxFile] looks for: a file of that name. *)
Definition is_file_named (name : string) (item : json) : bool :=
  strict_eq_str (prop item "name") name && strict_eq_str (prop item "type") "file".

(** The search request of [ensureBoxFolder] and of [ensureGDriveFolder]. *)
Definition box_folder_search (s : state) : request :=
  Request GET (BoxSearch folderName "folder") (accessToken s) NoBody.

Definition gdrive_folder_search (s : state) : request :=
  Request GET (GDriveFileList (FolderNamed folderName)) (accessToken s) NoBody.


(** The last character of a string. *)
Fixpoint last_char (s : string) : option ascii :=
  match s with
  | EmptyString => None
  | String a EmptyString => Some a
  | String _ r => last_char r
  end.

(** A provider whose folder listing holds a folder and a file of another
    name in front of the planner's file. *)
Definition crowded_listing : json :=
  JObj {[ "entries" := JArr
    [ JObj {[ "type" := JStr "folder"; "id" := JStr "5"; "name" := JStr fileName ]};
      JObj {[ "type" := JStr "file"; "id" := JStr "6"; "name" := JStr settingsFileName ]};
      JObj {[ "type" := JStr "file"; "id" := JStr "7"; "name" := JStr fileName ]} ] ]}.

Definition crowded_host : Host := constant_host (Response 200 (Some crowded_listing)).

(** ** The calendar modules

    [OutlookCalendar] and [GoogleCalendar] keep their token in a field of
    their own and in [localStorage]. Their instances are modelled on top of
    [state]: its [accessToken] field stands for the module's token field,
    [localStorage] and [window_location] are the browser's; the provider
    selection, the folder cache and the request log of [CloudStorageSync]
    are not used. Requests to the calendar services are logged apart. *)

(** The state-and-exception monad over any state. *)
Definition SM (S A : Type) : Type := S → result A * S.

Definition sret {S A} (a : A) : SM S A := fun s => (Ok a, s).
Definition sthrow {S A} (e : js_error) : SM S A := fun s => (Throw e, s).
Definition sbind {S A B} (c : SM S A) (k : A → SM S B) : SM S B :=
  fun s =>
    match c s with
    | (Ok a, s') => k a s'
    | (Throw e, s') => (Throw e, s')
    end.
Definition sget {S} : SM S S := fun s => (Ok s, s).
Definition smodify {S} (f : S → S) : SM S unit := fun s => (Ok tt, f s).
Definition slift {S A} (x : result A) : SM S A := fun s => (x, s).

Notation "x <~ c ;; k" := (sbind c (fun x => k))
  (at level 100, c at next level, right associativity).
Notation "c ~~ k" := (sbind c (fun _ => k))
  (at level 100, right associativity).

(** [array.map(f)] for a callback that may throw. *)
Fixpoint map_result {A B} (f : A → result B) (l : list A) : result (list B) :=
  match l with
  | [] => Ok []
  | x :: rest =>
      rbind (f x) (fun y => rbind (map_result f rest) (fun ys => Ok (y :: ys)))
  end.

(** [a || b]. *)
Definition js_or (a b : jsval) : jsval := if js_truthy a then a else b.

(** ToBoolean of a string or [null]. *)
Definition truthy_text (t : option string) : bool :=
  match t with
  | Some t => negb (String.eqb t "")
  | None => false
  end.

Inductive calendar_endpoint : Type :=
  | GoogleCalendarList
      (* www.googleapis.com/calendar/v3/users/me/calendarList *)
  | OutlookCalendarView (startISO endISO : string).
      (* graph.microsoft.com/v1.0/me/calendarview?startDateTime=..&endDateTime=.. *)

(** A calendar request: its URL, its bearer token and its [Prefer]
    header. *)
Record calendar_request : Type := CalendarRequest {
  calendar_target : calendar_endpoint;
  calendar_bearer : option string;
  calendar_prefer : option string;
}.

Class CalendarHost : Type := {
  (** the calendar service's answer, given the requests made so far *)
  calendar_respond : list calendar_request → calendar_request → fetch_outcome;
}.

(** *** [OutlookCalendar] *)

(** [new Date(argument)], kept as it was built. *)
Inductive js_date : Type := NewDate (argument : jsval).

(** An entry of the array that [fetchEvents] returns. *)
Record outlook_event : Type := OutlookEvent {
  event_subject : jsval;
  event_start : js_date;
  event_end : js_date;
  event_location : jsval;
  event_isAllDay : jsval;
  event_organizer : jsval;
  event_color : string;
}.

Record outlook_calendar : Type := OutlookCalendarState {
  outlook_page : state;
  outlook_log : list calendar_request;
}.

Module OutlookCalendar.
Section OutlookCalendar.

Context `{Host} `{CalendarHost}.

Definition token_key : string := "outlook_access_token".

Definition isAuthenticated : M bool :=
  savedToken <- getItem token_key ;;
  if truthy_text savedToken then
    modify (set_accessToken savedToken) ;; ret true
  else ret false.

Definition handleAuthCallback : M bool :=
  s <- get ;;
  let hash := substring1 (hash (window_location s)) in
  let params := URLSearchParams hash in
  let accessToken := params_get params "access_token" in
  if truthy_text accessToken then
    modify (set_accessToken accessToken) ;;
    setItem token_key (default "" accessToken) ;;
    (* Clean URL *)
    replaceState_pathname ;;
    ret true
  else ret false.

Definition disconnect : M unit :=
  removeItem token_key ;;
  modify (set_accessToken None).

Definition getEventColor (event : json) : string :=
  if strict_eq_str (prop event "showAs") "busy" then "#d4775d"
  else if strict_eq_str (prop event "showAs") "tentative" then "#4a90e2"
  else if strict_eq_str (prop event "showAs") "outOfOffice" then "#9b59b6"
  else "#2c5f4f".

(** A method of the page's state run on the instance. *)
Definition on_page {A} (c : M A) : SM outlook_calendar A :=
  fun o =>
    let (r, p) := c (outlook_page o) in
    (r, OutlookCalendarState p (outlook_log o)).

Definition fetch (r : calendar_request) : SM outlook_calendar response :=
  fun o =>
    let o' := OutlookCalendarState (outlook_page o) (outlook_log o ++ [r]) in
    match calendar_respond (outlook_log o) r with
    | Answer a => (Ok a, o')
    | Rejected => (Throw NetworkError, o')
    end.

(** The callback of [data.value.map]. *)
Definition convert (event : json) : result outlook_event :=
  rbind (get_prop (Some event) "subject") (fun subject =>
  rbind (get_prop (Some event) "start") (fun start =>
  rbind (get_prop start "dateTime") (fun startTime =>
  rbind (get_prop (Some event) "end") (fun end_ =>
  rbind (get_prop end_ "dateTime") (fun endTime =>
  Ok (OutlookEvent
        subject
        (NewDate startTime)
        (NewDate endTime)
        (get_prop_opt (prop event "location") "displayName")
        (prop event "isAllDay")
        (get_prop_opt (get_prop_opt (prop event "organizer") "emailAddress") "name")
        (getEventColor event))))))).

(** [fetchEvents(startDate, endDate)] for two valid dates, given by their
    ISO strings. *)
Definition fetchEvents (startISO endISO : string)
  : SM outlook_calendar (list outlook_event) :=
  o <~ sget ;;
  if negb (truthy_text (accessToken (outlook_page o))) then
    sthrow (Error "Not authenticated")
  else
  response <~ fetch (CalendarRequest (OutlookCalendarView startISO endISO)
                       (accessToken (outlook_page o))
                       (Some ("outlook.timezone=" +:+ quote +:+ "UTC" +:+ quote))) ;;
  if negb (ok response) then
    if status response =? 401 then
      (* Token expired *)
      on_page disconnect ~~
      sthrow (Error "Authentication expired. Please sign in again.")
    else sthrow (Error "Failed to fetch calendar events")
  else
  data <~ match json_body response with
          | Some j => sret j
          | None => sthrow SyntaxError
          end ;;
  value <~ slift (get_prop (Some data) "value") ;;
  (* Convert to our format *)
  match value with
  | Some (JArr events) => slift (map_result convert events)
  | _ => sthrow TypeError
  end.

End OutlookCalendar.
End OutlookCalendar.

(** *** [GoogleCalendar] *)

(** An entry of [calendarList]. *)
Record calendar_entry : Type := CalendarEntry {
  entry_id : jsval;
  entry_summary : jsval;
  entry_description : jsval;
  entry_backgroundColor : jsval;
  entry_primary : jsval;
}.

Record google_calendar : Type := GoogleCalendarState {
  google_page : state;
  calendarList : list calendar_entry;
  google_log : list calendar_request;
}.

Module Google.
Section Google.

Context `{Host} `{CalendarHost}.

Definition token_key : string := "google_calendar_access_token".
Definition expiry_key : string := "google_calendar_token_expiry".
Definition selected_key : string := "google_calendar_selected".

(** A method of the page's state run on the instance. *)
Definition on_page {A} (c : M A) : SM google_calendar A :=
  fun g =>
    let (r, p) := c (google_page g) in
    (r, GoogleCalendarState p (calendarList g) (google_log g)).

Definition disconnect : SM google_calendar unit :=
  on_page (removeItem token_key ;;
           removeItem expiry_key ;;
           removeItem selected_key ;;
           modify (set_accessToken None)) ~~
  smodify (fun g => GoogleCalendarState (google_page g) [] (google_log g)).

(** [now] is the value of [Date.now()]. *)
Definition isAuthenticated (now : Z) : SM google_calendar bool :=
  savedToken <~ on_page (getItem token_key) ;;
  expiry <~ on_page (getItem expiry_key) ;;
  if truthy_text savedToken && truthy_text expiry
     && match parseInt (default "" expiry) with
        | Some instant => now <? instant
        | None => false
        end
  then
    on_page (modify (set_accessToken savedToken)) ~~ sret true
  else
    (* Token expired - clean up *)
    (if truthy_text savedToken then disconnect else sret tt) ~~
    sret false.

Definition handleAuthCallback (now : Z) : SM google_calendar bool :=
  on_page (GoogleCalendar.handleAuthCallback now).

Definition fetch (r : calendar_request) : SM google_calendar response :=
  fun g =>
    let g' := GoogleCalendarState (google_page g) (calendarList g)
                                  (google_log g ++ [r]) in
    match calendar_respond (google_log g) r with
    | Answer a => (Ok a, g')
    | Rejected => (Throw NetworkError, g')
    end.

(** The callback of [(data.items || []).map]. *)
Definition describe (cal : json) : result calendar_entry :=
  rbind (get_prop (Some cal) "id") (fun id =>
  Ok (CalendarEntry
        id
        (js_or (prop cal "summary") id)
        (js_or (prop cal "description") (Some (JStr "")))
        (js_or (prop cal "backgroundColor") (Some (JStr "#2c5f4f")))
        (js_or (prop cal "primary") (Some (JBool false))))).

Definition fetchCalendarList : SM google_calendar (list calendar_entry) :=
  g <~ sget ;;
  if negb (truthy_text (accessToken (google_page g))) then
    sthrow (Error "Not authenticated")
  else
  response <~ fetch (CalendarRequest GoogleCalendarList
                       (accessToken (google_page g)) None) ;;
  if negb (ok response) then
    if status response =? 401 then
      disconnect ~~
      sthrow (Error "Authentication expired. Please sign in again.")
    else sthrow (Error "Failed to fetch calendar list")
  else
  data <~ match json_body response with
          | Some j => sret j
          | None => sthrow SyntaxError
          end ;;
  items <~ slift (get_prop (Some data) "items") ;;
  list <~ (if js_truthy items then
             match items with
             | Some (JArr cals) => slift (map_result describe cals)
             | _ => sthrow TypeError
             end
           else sret []) ;;
  smodify (fun g => GoogleCalendarState (google_page g) list (google_log g)) ~~
  sret list.

(** [null] when nothing usable is saved. *)
Definition getSelectedCalendarIds : SM google_calendar json :=
  saved <~ on_page (getItem selected_key) ;;
  if truthy_text saved then
    match parse (default "" saved) with
    | Ok ids => sret ids
    | Throw _ => sret JNull
    end
  else sret JNull.

Definition saveSelectedCalendarIds (calendarIds : json) : SM google_calendar unit :=
  on_page (setItem selected_key (JSON_stringify calendarIds)).

End Google.
End Google.

(** The requests of the two calendar modules. *)
Definition google_list_request (g : google_calendar) : calendar_request :=
  CalendarRequest GoogleCalendarList (accessToken (google_page g)) None.

Definition outlook_view_request (startISO endISO : string) (o : outlook_calendar)
  : calendar_request :=
  CalendarRequest (OutlookCalendarView startISO endISO)
                  (accessToken (outlook_page o))
                  (Some ("outlook.timezone=" +:+ quote +:+ "UTC" +:+ quote)).

(** The instance after a request was logged. *)
Definition google_requested (r : calendar_request) (g : google_calendar)
  : google_calendar :=
  GoogleCalendarState (google_page g) (calendarList g) (google_log g ++ [r]).

Definition outlook_requested (r : calendar_request) (o : outlook_calendar)
  : outlook_calendar :=
  OutlookCalendarState (outlook_page o) (outlook_log o ++ [r]).

(** Nothing of the Google Calendar session is left: no token in the
    instance, no token, expiry or selection in [localStorage], no calendar
    list. *)
Definition google_signed_out (g : google_calendar) : Prop :=
  accessToken (google_page g) = None ∧
  localStorage (google_page g) !! Google.token_key = None ∧
  localStorage (google_page g) !! Google.expiry_key = None ∧
  localStorage (google_page g) !! Google.selected_key = None ∧
  calendarList g = [].

(** What every entry of the calendar list offers to its reader. *)
Definition entry_complete (entry : calendar_entry) : Prop :=
  js_truthy (entry_backgroundColor entry) = true ∧
  (js_truthy (entry_summary entry) = true ∨ entry_summary entry = entry_id entry) ∧
  (js_truthy (entry_description entry) = true ∨
   entry_description entry = Some (JStr "")) ∧
  (js_truthy (entry_primary entry) = true ∨
   entry_primary entry = Some (JBool false)).

(** An event that carries a [start] and an [end] to read [dateTime] from. *)
Definition has_times (event : json) : bool :=
  match event, prop event "start", prop event "end" with
  | JNull, _, _ | _, None, _ | _, Some JNull, _
  | _, _, None | _, _, Some JNull => false
  | _, _, _ => true
  end.

(** The colours of [OutlookCalendar.getEventColor]. *)
Definition outlook_palette : list string :=
  [ "#d4775d"; "#4a90e2"; "#9b59b6"; "#2c5f4f" ].

(** A calendar service that answers every request with the same response. *)
Definition constant_calendar (r : response) : CalendarHost := {|
  calendar_respond := fun _ _ => Answer r;
|}.

(** A Google Calendar instance and an Outlook instance on a page. *)
Definition google_on (p : state) : google_calendar := GoogleCalendarState p [] [].
Definition outlook_on (p : state) : outlook_calendar := OutlookCalendarState p [].

(** A calendar list with a bare entry and a fully described one. *)
Definition sample_calendars : json :=
  JObj {[ "items" := JArr
    [ JObj {[ "id" := JStr "primary" ]};
      JObj {[ "id" := JStr "team"; "summary" := JStr "Team";
              "backgroundColor" := JStr "#336699"; "primary" := JBool true ]} ] ]}.

(** Two events, the second without [end]. *)
Definition sample_event : json :=
  JObj {[ "subject" := JStr "Review"; "showAs" := JStr "busy";
          "start" := JObj {[ "dateTime" := JStr "2026-01-05T09:00:00" ]};
          "end" := JObj {[ "dateTime" := JStr "2026-01-05T10:00:00" ]} ]}.

Definition broken_event : json :=
  JObj {[ "subject" := JStr "Draft";
          "start" := JObj {[ "dateTime" := JStr "2026-01-06T09:00:00" ]} ]}.

(** What [fetchEvents] makes of an event. *)
Definition converted (event : json) (c : outlook_event) : Prop :=
  event_subject c = prop event "subject" ∧
  event_start c = NewDate (get_prop_opt (prop event "start") "dateTime") ∧
  event_end c = NewDate (get_prop_opt (prop event "end") "dateTime") ∧
  event_color c ∈ outlook_palette.

(** A page that holds [token], in the instance and under [key]. *)
Definition calendar_page (key token : string) : state :=
  State None (Some token) js_null {[ key := token ]} desk_page [].



(** An answer with two events, of which the second cannot be converted. *)
Definition sample_events : json :=
  JObj {[ "value" := JArr [sample_event; broken_event] ]}.

(** ** The service worker

    [service-worker.js] handles three events. Its state is the origin's
    [CacheStorage], the caches by name in creation order, each cache with
    its entries in insertion order, and the log of the requests it sent to
    the network. Requests are compared as the Cache API compares them, by
    method and URL; responses are those of [response], which carry no
    [Vary] header. The messages written to the console are left out. *)

Record worker_request : Type := WorkerRequest {
  request_method : string;
  request_url : string;
}.

(** The request that [addAll] makes of a URL. *)
Definition request_of (url : string) : worker_request := WorkerRequest "GET" url.

Abbreviation cache := (list (worker_request * response)).

Record worker : Type := Worker {
  caches : list (string * cache);
  worker_log : list worker_request;
}.

Class Network : Type := {
  (** the network's answer, given the requests sent so far *)
  network : list worker_request → worker_request → fetch_outcome;
}.

(** [SM]'s [try { c } catch (e) { h e }]. *)
Definition scatch {S A} (c : SM S A) (h : js_error → SM S A) : SM S A :=
  fun s =>
    match c s with
    | (Ok a, s') => (Ok a, s')
    | (Throw e, s') => h e s'
    end.

(** *** The Cache API *)

(** Only a [GET] request matches, and it matches the entries of its URL. *)
Definition request_matches (query cached : worker_request) : bool :=
  String.eqb (request_method query) "GET" &&
  String.eqb (request_url query) (request_url cached).

(** [cache.match(query)]: the first matching entry. *)
Definition cache_match (query : worker_request) (c : cache) : option response :=
  snd <$> List.find (fun entry => request_matches query entry.1) c.

(** [caches.match(query)]: the first match, cache by cache. *)
Fixpoint caches_match (query : worker_request) (cs : list (string * cache))
  : option response :=
  match cs with
  | [] => None
  | (_, c) :: rest =>
      match cache_match query c with
      | Some r => Some r
      | None => caches_match query rest
      end
  end.

(** [cache.put]: the entries of that URL are replaced by the new one. *)
Definition cache_put (entry : worker_request * response) (c : cache) : cache :=
  List.filter (fun old => negb (String.eqb (request_url old.1) (request_url entry.1))) c
  ++ [entry].

Definition has_cache (name : string) (cs : list (string * cache)) : bool :=
  existsb (fun c => String.eqb c.1 name) cs.

(** The cache of that name, if there is one. *)
Definition cache_named (name : string) (cs : list (string * cache)) : option cache :=
  snd <$> List.find (fun c => String.eqb c.1 name) cs.

Definition update_cache (name : string) (f : cache → cache)
    (cs : list (string * cache)) : list (string * cache) :=
  map (fun c => if String.eqb c.1 name then (c.1, f c.2) else c) cs.

(** [caches.open(name)] creates the cache when it is missing. *)
Definition caches_open (name : string) : SM worker unit :=
  smodify (fun w =>
    if has_cache name (caches w) then w
    else Worker (caches w ++ [(name, [])]) (worker_log w)).

Definition caches_keys : SM worker (list string) :=
  w <~ sget ;; sret (map fst (caches w)).

(** [caches.delete(name)] tells whether there was such a cache. *)
Definition caches_delete (name : string) : SM worker bool :=
  w <~ sget ;;
  smodify (fun w =>
    Worker (List.filter (fun c => negb (String.eqb c.1 name)) (caches w))
           (worker_log w)) ~~
  sret (has_cache name (caches w)).

Section CacheRequests.

Context `{Network}.

(** A request goes out; its outcome is known later. *)
Definition send (request : worker_request) : SM worker fetch_outcome :=
  fun w =>
    (Ok (network (worker_log w) request),
     Worker (caches w) (worker_log w ++ [request])).

(** [fetch(request)]. *)
Definition worker_fetch (request : worker_request) : SM worker response :=
  outcome <~ send request ;;
  match outcome with
  | Answer a => sret a
  | Rejected => sthrow NetworkError
  end.

Fixpoint send_each (requests : list worker_request)
  : SM worker (list fetch_outcome) :=
  match requests with
  | [] => sret []
  | request :: rest =>
      outcome <~ send request ;;
      outcomes <~ send_each rest ;;
      sret (outcome :: outcomes)
  end.

(** What [addAll] stores: an answer with a status of 200-299 other than
    206. *)
Definition accepted (outcome : fetch_outcome) : option response :=
  match outcome with
  | Answer r => if ok r && negb (status r =? 206) then Some r else None
  | Rejected => None
  end.

Fixpoint all_accepted (outcomes : list fetch_outcome) : option (list response) :=
  match outcomes with
  | [] => Some []
  | outcome :: rest =>
      match accepted outcome, all_accepted rest with
      | Some r, Some rs => Some (r :: rs)
      | _, _ => None
      end
  end.

(** [cache.addAll(urls)] on the cache [name]: every URL is requested; the
    responses are stored together, or none of them is. *)
Definition cache_addAll (name : string) (urls : list string) : SM worker unit :=
  let requests := map request_of urls in
  outcomes <~ send_each requests ;;
  match all_accepted outcomes with
  | Some responses =>
      smodify (fun w =>
        Worker (update_cache name
                  (fun c => foldl (fun c entry => cache_put entry c) c
                                  (zip requests responses))
                  (caches w))
               (worker_log w))
  | None => sthrow TypeError
  end.

End CacheRequests.

(** *** The handlers *)

Module ServiceWorker.
Section ServiceWorker.

Context `{Network}.

Definition CACHE_NAME : string := "planner-v1".

Definition urlsToCache : list string :=
  [ "/digital-planner/";
    "/digital-planner/index.html";
    "/digital-planner/manifest.json";
    "https://fonts.googleapis.com/css2?family=Crimson+Pro:wght@400;600;700&family=JetBrains+Mono:wght@400;500&family=Permanent+Marker&display=swap" ].

(** The promise given to [waitUntil] by the [install] listener. *)
Definition on_install : SM worker unit :=
  scatch (caches_open CACHE_NAME ~~
          cache_addAll CACHE_NAME urlsToCache)
         (fun error => sret tt).

(** The promise given to [respondWith] by the [fetch] listener. *)
Definition on_fetch (request : worker_request) : SM worker response :=
  w <~ sget ;;
  match caches_match request (caches w) with
  | Some response => sret response  (* Cache hit - return response *)
  | None => worker_fetch request
  end.

Definition cacheWhitelist : list string := [CACHE_NAME].

(** [cacheWhitelist.indexOf(cacheName) === -1]. *)
Definition not_listed (cacheName : string) : bool :=
  negb (existsb (String.eqb cacheName) cacheWhitelist).

(** The promise given to [waitUntil] by the [activate] listener. *)
Definition on_activate : SM worker unit :=
  cacheNames <~ caches_keys ;;
  foldr (fun cacheName rest =>
           (if not_listed cacheName
            then caches_delete cacheName ~~ sret tt
            else sret tt) ~~ rest)
        (sret tt) cacheNames.

(** The worker after a series of [fetch] events. *)
Fixpoint after_fetches (requests : list worker_request) (w : worker) : worker :=
  match requests with
  | [] => w
  | request :: rest => after_fetches rest (on_fetch request w).2
  end.

End ServiceWorker.
End ServiceWorker.

(** A network that answers every request with the same outcome. *)
Definition constant_network (outcome : fetch_outcome) : Network := {|
  network := fun _ _ => outcome;
|}.

(** A network that is up until [n] requests were sent, and down after. *)
Definition network_until (n : nat) (r : response) : Network := {|
  network := fun sent _ => if (List.length sent <? n)%nat then Answer r else Rejected;
|}.

(** A worker that has nothing yet, and one that finds a cache of another
    version. *)
Definition new_worker : worker := Worker [] [].

Definition upgraded_worker : worker :=
  Worker [ ("planner-v0",
            [ (request_of "/digital-planner/", Response 200 None);
              (request_of "/digital-planner/old.css", Response 200 None) ]) ]
         [].

(** * Theorems *)

(** ** The merge *)

Section Merge.

Lemma spread_merge (a b : json) : spread (merge a b) = spread b ∪ spread a.
Proof. reflexivity. Qed.

Lemma merge_lookup (a b : json) (k : string) :
  spread (merge a b) !! k =
    match spread b !! k with
    | Some v => Some v
    | None => spread a !! k
    end.
Proof.
  rewrite spread_merge, lookup_union.
  destruct (spread b !! k), (spread a !! k); reflexivity.
Qed.

(** Spreading [null] (an absent download) adds nothing. *)
Lemma merge_null (local : gmap string json) :
  merge (JObj local) JNull = JObj local.
Proof. unfold merge; simpl. by rewrite (left_id_L ∅ (∪)). Qed.

(** C7. The shallow merge used by [syncData] is idempotent in its remote
    argument: merging the remote document into the result of a merge
    changes nothing, [merge (merge local remote) remote = merge local remote]. *)
Theorem merge_idempotent (local remote : json) :
  merge (merge local remote) remote = merge local remote.
Proof.
  unfold merge at 1 3. f_equal. rewrite spread_merge.
  by rewrite (assoc_L (∪)), (idemp_L (∪)).
Qed.

(** The document of a successful [syncData] is the merge of the local
    document with what the first download returned. *)
Lemma syncData_success_inv `{Host} s d s' :
  syncData s = (Ok (Success d), s') →
  ∃ cloudData s1 cloudSettings s2 localData,
    downloadData false s = (Ok cloudData, s1) ∧
    downloadData true s1 = (Ok cloudSettings, s2) ∧
    parse (or_empty_object (localStorage s2 !! data_key)) = Ok localData ∧
    d = merge localData cloudData.
Proof.
  unfold syncData, try_catch.
  destruct (syncData_try s) as [[r|e] s0] eqn:Et; [| discriminate].
  intros [= -> ->]. revert Et. unfold syncData_try.
  unfold bind at 1.
  destruct (downloadData false s) as [[cloudData|] s1] eqn:Hd1; [| done].
  unfold bind at 1.
  destruct (downloadData true s1) as [[cloudSettings|] s2] eqn:Hd2; [| done].
  unfold bind at 1, getItem at 1, bind at 1, get, ret. simpl.
  unfold bind at 1, lift at 1.
  destruct (parse (or_empty_object (localStorage s2 !! data_key)))
    as [localData|] eqn:Hp; [| done].
  intros Hrest. exists cloudData, s1, cloudSettings, s2, localData.
  do 3 (split; [done |]). revert Hrest.
  unfold bind, getItem, setItem, lift, get, ret.
  repeat case_match; intros; by simplify_eq/=.
Qed.

(** C1. The merge computed by [syncData], on a local and a remote
    document that are JSON objects: a key of the remote document has the
    remote value in the result, whatever the local document holds for it;
    a key that only the local document has keeps its local value; a key
    that only the remote document has is adopted; and for local
    [{a:1, b:2}] and remote [{b:3, c:4}] the result is [{a:1, b:3, c:4}].
    The document of a successful [syncData] is this merge of the parsed
    local document with the downloaded one. *)
Theorem merge_remote_wins (local remote : gmap string json) :
  (∀ k v, remote !! k = Some v →
          spread (merge (JObj local) (JObj remote)) !! k = Some v) ∧
  (∀ k, remote !! k = None →
        spread (merge (JObj local) (JObj remote)) !! k = local !! k) ∧
  (∀ k v, local !! k = None → remote !! k = Some v →
          spread (merge (JObj local) (JObj remote)) !! k = Some v) ∧
  merge local_document remote_document = merged_document ∧
  (∀ (host : Host) s d s',
      @syncData host s = (Ok (Success d), s') →
      ∃ cloudData s1 cloudSettings s2 localData,
        @downloadData host false s = (Ok cloudData, s1) ∧
        @downloadData host true s1 = (Ok cloudSettings, s2) ∧
        @parse host (or_empty_object (localStorage s2 !! data_key))
          = Ok localData ∧
        d = merge localData cloudData).
Proof.
  repeat split.
  - intros k v Hk. rewrite merge_lookup. simpl. by rewrite Hk.
  - intros k Hk. rewrite merge_lookup. simpl. by rewrite Hk.
  - intros k v _ Hk. rewrite merge_lookup. simpl. by rewrite Hk.
  - intros host s d s'. apply syncData_success_inv.
Qed.

End Merge.

(** ** Rules for [obeys] *)

Section Obeys.

Context `{Host}.

Lemma frame_refl s : frame s s.
Proof. repeat split; try done. exists []. by rewrite app_nil_r. Qed.

Lemma frame_trans s1 s2 s3 : frame s1 s2 → frame s2 s3 → frame s1 s3.
Proof.
  intros (Hp & Ha & Hl & Hw & i & Hi) (Hp' & Ha' & Hl' & Hw' & i' & Hi').
  repeat split; try congruence.
  exists (i ++ i'). rewrite Hi', Hi. by rewrite (assoc_L (++)).
Qed.

Lemma obeys_ret {A} (a : A) : obeys (ret a).
Proof. intros s r s' [= <- <-]. split; [apply frame_refl | done]. Qed.

Lemma obeys_get : obeys get.
Proof. intros s r s' [= <- <-]. split; [apply frame_refl | done]. Qed.

Lemma obeys_lift {A} (x : result A) :
  (∀ e, x = Throw e → generic_failure e) → obeys (lift x).
Proof. intros Hx s r s' [= <- <-]. split; [apply frame_refl | done]. Qed.

Lemma obeys_throw {A} (e : js_error) : generic_failure e → obeys (@throw A e).
Proof.
  intros He s r s' [= <- <-]. split; [apply frame_refl |].
  by intros e' [= <-].
Qed.

Lemma obeys_bind {A B} (c : M A) (k : A → M B) :
  obeys c → (∀ a, obeys (k a)) → obeys (bind c k).
Proof.
  intros Hc Hk s r s'. unfold bind.
  destruct (c s) as [[a|e] s1] eqn:Ec; intros Hr.
  - destruct (Hc _ _ _ Ec) as [F1 _]. destruct (Hk a _ _ _ Hr) as [F2 G].
    split; [by eapply frame_trans | done].
  - injection Hr as <- <-. destruct (Hc _ _ _ Ec) as [F G].
    split; [done |]. intros e' [= <-]. by apply G.
Qed.

Lemma obeys_set_folderId (f : jsval) : obeys (modify (set_folderId f)).
Proof.
  intros s r s' [= <- <-]. split; [| done].
  repeat split; try done. exists []. simpl. by rewrite app_nil_r.
Qed.

Lemma obeys_fetch (r : request) : obeys (fetch r).
Proof.
  intros s x s'. unfold fetch.
  destruct (respond (log s) r); intros [= <- <-];
    (split; [repeat split; try done; by exists [r] | by intros e [= <-]]).
Qed.

End Obeys.

(** ** The adapter operations keep the frame *)

Section AdapterFrame.

Context `{Host}.

(** Reading properties raises nothing but [TypeError]. *)
Definition engine_only {A} (x : result A) : Prop :=
  ∀ e, x = Throw e → e = TypeError.

Lemma engine_only_generic {A} (x : result A) :
  engine_only x → ∀ e, x = Throw e → generic_failure e.
Proof. intros Hx e He. by rewrite (Hx e He). Qed.

Lemma get_prop_engine_only v p : engine_only (get_prop v p).
Proof. intros e. destruct v as [[]|]; simpl; congruence. Qed.

Lemma length_gt_zero_engine_only j : engine_only (length_gt_zero j).
Proof.
  intros e. destruct j; simpl; try congruence.
  destruct (m !! "length") as [[]|]; try congruence;
    destruct (coerced_gt_zero _); congruence.
Qed.

Lemma non_empty_engine_only v : engine_only (non_empty v).
Proof.
  intros e. destruct v as [j|]; simpl; [| congruence].
  destruct (truthy j); [apply length_gt_zero_engine_only | congruence].
Qed.

Lemma find_file_engine_only name items : engine_only (find_file name items).
Proof.
  induction items as [| item rest IH]; intros e; simpl; [congruence |].
  destruct item; simpl; try congruence; try apply IH.
  case_match; [congruence | apply IH].
Qed.

Lemma array_find_engine_only name v : engine_only (array_find name v).
Proof.
  intros e. destruct v as [[]|]; simpl; try congruence.
  apply find_file_engine_only.
Qed.

Lemma obeys_json_of r : obeys (json_of r).
Proof.
  unfold json_of. destruct (json_body r); [apply obeys_ret |].
  by apply obeys_throw.
Qed.

Lemma failure_message_generic msg :
  msg ∈ failure_messages → generic_failure (Error msg).
Proof. done. Qed.

Ltac obeys_step :=
  match goal with
  | |- obeys (bind _ _) => apply obeys_bind; [| intros ?]
  | |- obeys (ret _) => apply obeys_ret
  | |- obeys get => apply obeys_get
  | |- obeys (fetch _) => apply obeys_fetch
  | |- obeys (json_of _) => apply obeys_json_of
  | |- obeys (modify (set_folderId _)) => apply obeys_set_folderId
  | |- obeys (throw (Error _)) =>
      apply obeys_throw, failure_message_generic; set_solver
  | |- obeys (lift (get_prop _ _)) =>
      apply obeys_lift, engine_only_generic, get_prop_engine_only
  | |- obeys (lift (non_empty _)) =>
      apply obeys_lift, engine_only_generic, non_empty_engine_only
  | |- obeys (lift (array_find _ _)) =>
      apply obeys_lift, engine_only_generic, array_find_engine_only
  | |- obeys (if ?b then _ else _) => destruct b
  | |- obeys (match ?x with _ => _ end) => destruct x
  end.

Ltac obeys_auto := repeat obeys_step.

Lemma obeys_fetch_authorized m t b : obeys (fetch_authorized m t b).
Proof. unfold fetch_authorized. obeys_auto. Qed.

Hint Resolve obeys_fetch_authorized : core.

Lemma obeys_ensureBoxFolder : obeys ensureBoxFolder.
Proof. unfold ensureBoxFolder. obeys_auto; auto. Qed.

Lemma obeys_ensureGDriveFolder : obeys ensureGDriveFolder.
Proof. unfold ensureGDriveFolder. obeys_auto; auto. Qed.

Lemma obeys_findBoxFile name folder : obeys (findBoxFile name folder).
Proof. unfold findBoxFile. obeys_auto; auto. Qed.

Lemma obeys_findGDriveFile name folder : obeys (findGDriveFile name folder).
Proof. unfold findGDriveFile. obeys_auto; auto. Qed.

Hint Resolve obeys_ensureBoxFolder obeys_ensureGDriveFolder
  obeys_findBoxFile obeys_findGDriveFile : core.

Lemma obeys_uploadToBox data name : obeys (uploadToBox data name).
Proof. unfold uploadToBox. obeys_auto; auto. Qed.

Lemma obeys_downloadFromBox name : obeys (downloadFromBox name).
Proof. unfold downloadFromBox. obeys_auto; auto. Qed.

Lemma obeys_uploadToOneDrive data name : obeys (uploadToOneDrive data name).
Proof. unfold uploadToOneDrive. obeys_auto; auto. Qed.

Lemma obeys_downloadFromOneDrive name : obeys (downloadFromOneDrive name).
Proof. unfold downloadFromOneDrive. obeys_auto; auto. Qed.

Lemma obeys_uploadToGDrive data name : obeys (uploadToGDrive data name).
Proof. unfold uploadToGDrive. obeys_auto; auto. Qed.

Lemma obeys_downloadFromGDrive name : obeys (downloadFromGDrive name).
Proof. unfold downloadFromGDrive. obeys_auto; auto. Qed.

Hint Resolve obeys_uploadToBox obeys_downloadFromBox obeys_uploadToOneDrive
  obeys_downloadFromOneDrive obeys_uploadToGDrive obeys_downloadFromGDrive
  : core.

Lemma obeys_uploadData data isSettings : obeys (uploadData data isSettings).
Proof. unfold uploadData. obeys_auto; auto. Qed.

Lemma obeys_downloadData isSettings : obeys (downloadData isSettings).
Proof. unfold downloadData. obeys_auto; auto. Qed.

End AdapterFrame.

(** ** Folder resolution is memoised *)

Section EnsureFolder.

Context `{Host}.

Ltac run_cases :=
  unfold fetch_authorized, fetch, json_of, bind, get, ret, throw, lift, modify;
  intros;
  repeat (case_match; simplify_eq/=).

Lemma ensureBoxFolder_cached s :
  js_truthy (folderId s) = true → ensureBoxFolder s = (Ok (folderId s), s).
Proof. intros Hc. unfold ensureBoxFolder, bind, get, ret. simpl. by rewrite Hc. Qed.

Lemma ensureGDriveFolder_cached s :
  js_truthy (folderId s) = true → ensureGDriveFolder s = (Ok (folderId s), s).
Proof. intros Hc. unfold ensureGDriveFolder, bind, get, ret. simpl. by rewrite Hc. Qed.

(** One call caches what it returns and creates at most one folder. *)
Lemma ensureBoxFolder_run s r s' :
  ensureBoxFolder s = (r, s') →
  (∀ v, r = Ok v → folderId s' = v) ∧
  ∃ issued, log s' = log s ++ issued ∧
            (List.length (List.filter is_folder_creation issued) ≤ 1)%nat.
Proof.
  unfold ensureBoxFolder. run_cases;
    (split; [intros; by simplify_eq |]).
  all: try (exists []; rewrite app_nil_r; split; [done | simpl; lia]).
  all: try (eexists [_]; split; [done | simpl; lia]).
  all: try (eexists [_; _]; rewrite <- (assoc_L (++)); split; [done | simpl; lia]).
Qed.

Lemma ensureGDriveFolder_run s r s' :
  ensureGDriveFolder s = (r, s') →
  (∀ v, r = Ok v → folderId s' = v) ∧
  ∃ issued, log s' = log s ++ issued ∧
            (List.length (List.filter is_folder_creation issued) ≤ 1)%nat.
Proof.
  unfold ensureGDriveFolder. run_cases;
    (split; [intros; by simplify_eq |]).
  all: try (exists []; rewrite app_nil_r; split; [done | simpl; lia]).
  all: try (eexists [_]; split; [done | simpl; lia]).
  all: try (eexists [_; _]; rewrite <- (assoc_L (++)); split; [done | simpl; lia]).
Qed.

(** C4. For the providers with a folder-resolution step (Box, Google
    Drive): when a first call of the folder resolution returns a folder
    identifier (a truthy value, which is what the cache test accepts), a
    second call on the resulting instance returns the same identifier and
    leaves the state, and so the log of requests, as it is: it issues no
    search and no create request. The first call issued at most one
    folder-creation request, so the two calls together issue at most
    one. *)
Theorem ensureFolder_memoized (ensureFolder : M jsval) s v s1 :
  ensureFolder = ensureBoxFolder ∨ ensureFolder = ensureGDriveFolder →
  ensureFolder s = (Ok v, s1) →
  js_truthy v = true →
  ensureFolder s1 = (Ok v, s1) ∧
  ∃ issued, log s1 = log s ++ issued ∧
            (List.length (List.filter is_folder_creation issued) ≤ 1)%nat.
Proof.
  intros [-> | ->] Hrun Hv.
  - destruct (ensureBoxFolder_run _ _ _ Hrun) as [Hid Hlog].
    specialize (Hid v eq_refl). subst v. split; [| done].
    by apply ensureBoxFolder_cached.
  - destruct (ensureGDriveFolder_run _ _ _ Hrun) as [Hid Hlog].
    specialize (Hid v eq_refl). subst v. split; [| done].
    by apply ensureGDriveFolder_cached.
Qed.

End EnsureFolder.

Lemma ensureFolder_memoized_witness :
  let s := connected "box" "token" in
  let s1 := (@ensureBoxFolder reference_host s).2 in
  @ensureBoxFolder reference_host s1 = (Ok (Some (JStr "1")), s1) ∧
  ∃ issued, log s1 = log s ++ issued ∧
            (List.length (List.filter is_folder_creation issued) ≤ 1)%nat.
Proof.
  apply (@ensureFolder_memoized reference_host ensureBoxFolder).
  - by left.
  - reflexivity.
  - reflexivity.
Defined.

(** The premise of a returned identifier matters: a folder that comes back
    without an [id] leaves the cache empty, and the next call searches and
    creates again. *)
Example folder_without_id_not_memoized :
  let first := @ensureBoxFolder anonymous_host (connected "box" "token") in
  let second := @ensureBoxFolder anonymous_host first.2 in
  first.1 = Ok None ∧
  folderId first.2 = None ∧
  second.1 = Ok None ∧
  List.length (List.filter is_folder_creation (log second.2)) = 2%nat.
Proof. vm_compute. repeat split. Qed.

(** ** A failed lookup reads as an absent file *)

Section Lookup.

Context `{Host}.

Lemma findBoxFile_not_ok name folder s r :
  respond (log s) (box_listing folder s) = Answer r →
  ok r = false →
  findBoxFile name folder s = (Ok js_null, record_request (box_listing folder s) s).
Proof.
  intros Hr Hok. unfold findBoxFile, fetch_authorized, fetch, bind, get. simpl.
  fold (box_listing folder s). by rewrite Hr, Hok.
Qed.

Lemma findGDriveFile_not_ok name folder s r :
  respond (log s) (gdrive_listing name folder s) = Answer r →
  ok r = false →
  findGDriveFile name folder s =
    (Ok js_null, record_request (gdrive_listing name folder s) s).
Proof.
  intros Hr Hok. unfold findGDriveFile, fetch_authorized, fetch, bind, get. simpl.
  fold (gdrive_listing name folder s). by rewrite Hr, Hok.
Qed.

(** The log after the lookup and one more request. *)
Lemma fetch_log r s x s' :
  fetch r s = (x, s') → log s' = log s ++ [r].
Proof. unfold fetch. by case_match; intros [= <- <-]. Qed.

Lemma upload_tail {A} (m : http_method) (t : endpoint) (b : payload)
    (k : response → M A) s x s' :
  (response <- fetch_authorized m t b ;; k response) s = (x, s') →
  (∀ a s0 y s1, k a s0 = (y, s1) → log s1 = log s0) →
  log s' = log s ++ [Request m t (accessToken s) b].
Proof.
  intros Hrun Hk. unfold fetch_authorized, bind, get in Hrun. simpl in Hrun.
  destruct (fetch _ s) as [[a|e] s0] eqn:Ef.
  - rewrite (Hk _ _ _ _ Hrun). by apply fetch_log in Ef.
  - injection Hrun as <- <-. by apply fetch_log in Ef.
Qed.

(** C10. When the answer to the file-lookup request is not ok, whatever
    its status (404, 401, 500, ...): [findBoxFile] and [findGDriveFile]
    return [null] and raise nothing; the download that follows returns
    absent without fetching any content; and the upload that follows
    sends its content to the create endpoint, never to the update
    endpoint. *)
Theorem failed_lookup_reads_as_absent (r : response) :
  ok r = false →
  (∀ name folder s,
      respond (log s) (box_listing folder s) = Answer r →
      findBoxFile name folder s =
        (Ok js_null, record_request (box_listing folder s) s)) ∧
  (∀ name folder s,
      respond (log s) (gdrive_listing name folder s) = Answer r →
      findGDriveFile name folder s =
        (Ok js_null, record_request (gdrive_listing name folder s) s)) ∧
  (∀ name s folder s1,
      ensureBoxFolder s = (Ok folder, s1) →
      respond (log s1) (box_listing folder s1) = Answer r →
      downloadFromBox name s =
        (Ok JNull, record_request (box_listing folder s1) s1)) ∧
  (∀ name s folder s1,
      ensureGDriveFolder s = (Ok folder, s1) →
      respond (log s1) (gdrive_listing name folder s1) = Answer r →
      downloadFromGDrive name s =
        (Ok JNull, record_request (gdrive_listing name folder s1) s1)) ∧
  (∀ data name s folder s1 x s',
      ensureBoxFolder s = (Ok folder, s1) →
      respond (log s1) (box_listing folder s1) = Answer r →
      uploadToBox data name s = (x, s') →
      log s' = log s1 ++
        [ box_listing folder s1;
          Request POST BoxUploadContent (accessToken s1)
                  (BoxForm name folder (JSON_stringify data)) ]) ∧
  (∀ data name s folder s1 x s',
      ensureGDriveFolder s = (Ok folder, s1) →
      respond (log s1) (gdrive_listing name folder s1) = Answer r →
      uploadToGDrive data name s = (x, s') →
      log s' = log s1 ++
        [ gdrive_listing name folder s1;
          Request POST GDriveUpload (accessToken s1)
                  (GDriveForm name "application/json" [folder]
                              (JSON_stringify data)) ]).
Proof.
  intros Hok. repeat split.
  - intros. by eapply findBoxFile_not_ok.
  - intros. by eapply findGDriveFile_not_ok.
  - intros name s folder s1 He Hr.
    unfold downloadFromBox, bind. rewrite He.
    by rewrite (findBoxFile_not_ok _ _ _ _ Hr Hok).
  - intros name s folder s1 He Hr.
    unfold downloadFromGDrive, bind. rewrite He.
    by rewrite (findGDriveFile_not_ok _ _ _ _ Hr Hok).
  - intros data name s folder s1 x s' He Hr.
    unfold uploadToBox. unfold bind at 1. rewrite He.
    unfold bind at 1. rewrite (findBoxFile_not_ok _ _ _ _ Hr Hok). simpl.
    intros Hrun. apply upload_tail in Hrun.
    + rewrite Hrun. simpl. by rewrite <- (assoc_L (++)).
    + intros a s0 y s2. unfold json_of, throw, ret.
      by repeat case_match; intros [= <- <-].
  - intros data name s folder s1 x s' He Hr.
    unfold uploadToGDrive. unfold bind at 1. rewrite He.
    unfold bind at 1. rewrite (findGDriveFile_not_ok _ _ _ _ Hr Hok). simpl.
    intros Hrun. apply upload_tail in Hrun.
    + rewrite Hrun. simpl. by rewrite <- (assoc_L (++)).
    + intros a s0 y s2. unfold json_of, throw, ret.
      by repeat case_match; intros [= <- <-].
Qed.

End Lookup.

Lemma failed_lookup_reads_as_absent_witness :
  @findBoxFile offline_host fileName (Some (JStr "1")) (connected "box" "token") =
    (Ok js_null,
     record_request (box_listing (Some (JStr "1")) (connected "box" "token"))
                    (connected "box" "token")).
Proof.
  destruct (@failed_lookup_reads_as_absent offline_host (Response 500 None) eq_refl)
    as [Hfind _].
  apply Hfind. reflexivity.
Defined.

(** ** A failed synchronisation *)

Section SyncFailure.

Context `{Host}.

Lemma syncData_total s : ∃ r s', syncData s = (Ok r, s').
Proof.
  unfold syncData, try_catch.
  destruct (syncData_try s) as [[r|e] s']; [by exists r, s' |].
  by exists (Failure (message e)), s'.
Qed.

Lemma syncData_reports e s s' :
  syncData_try s = (Throw e, s') →
  syncData s = (Ok (Failure (message e)), s').
Proof. intros Ht. unfold syncData, try_catch. by rewrite Ht. Qed.

Lemma syncData_succeeds d s s' :
  syncData_try s = (Ok d, s') → syncData s = (Ok d, s').
Proof. intros Ht. unfold syncData, try_catch. by rewrite Ht. Qed.

(** The [try] block up to the uploads. *)
Lemma syncData_try_until_upload s cloudData s1 cloudSettings s2
    localData localSettings :
  downloadData false s = (Ok cloudData, s1) →
  downloadData true s1 = (Ok cloudSettings, s2) →
  parse (or_empty_object (localStorage s2 !! data_key)) = Ok localData →
  parse (or_empty_object (localStorage s2 !! settings_key)) = Ok localSettings →
  let mergedData := merge localData cloudData in
  let mergedSettings := merge localSettings cloudSettings in
  storage_full (localStorage s2) data_key (JSON_stringify mergedData) = false →
  storage_full (<[data_key := JSON_stringify mergedData]> (localStorage s2))
               settings_key (JSON_stringify mergedSettings) = false →
  syncData_try s =
    (uploadData mergedData false ;;
     uploadData mergedSettings true ;;
     ret (Success mergedData)) (locally_written mergedData mergedSettings s2).
Proof.
  intros Hd1 Hd2 Hp1 Hp2 mergedData mergedSettings Hq1 Hq2.
  unfold syncData_try.
  unfold bind at 1. rewrite Hd1.
  unfold bind at 1. rewrite Hd2.
  unfold bind at 1, getItem at 1, bind at 1, get, ret. simpl.
  unfold bind at 1, lift at 1. rewrite Hp1.
  unfold bind at 1, getItem at 1, bind at 1, get, ret. simpl.
  unfold bind at 1, lift at 1. rewrite Hp2.
  unfold bind at 1, setItem at 1. fold mergedData. rewrite Hq1.
  unfold bind at 1, setItem at 1. simpl. fold mergedSettings. rewrite Hq2.
  reflexivity.
Qed.

(** C5. [syncData] never throws: it returns a success or a single failure
    result. The cycle has eight steps that can fail: the two downloads,
    the two readings of the local documents, the two local writes and the
    two uploads (the merge cannot fail). Whichever of them fails, the
    result is the failure with that step's message and the final state is
    the state in which that step ended, so that no later step has run; and
    nothing is rolled back. A failed download or reading has written
    nothing locally; a refused first write leaves [localStorage] as it was;
    a refused second write leaves the merged data in [localStorage] beside
    the old settings; and when the first or the second upload fails, both
    merged values stay in [localStorage] although the provider does not
    have them. Only when all eight steps succeed is the result a success,
    with the merged data. *)
Theorem syncData_failure s :
  (∃ r s', syncData s = (Ok r, s')) ∧
  (∀ e s1, downloadData false s = (Throw e, s1) →
           syncData s = (Ok (Failure (message e)), s1) ∧
           localStorage s1 = localStorage s) ∧
  ∀ cloudData s1, downloadData false s = (Ok cloudData, s1) →
  (∀ e s2, downloadData true s1 = (Throw e, s2) →
           syncData s = (Ok (Failure (message e)), s2) ∧
           localStorage s2 = localStorage s) ∧
  ∀ cloudSettings s2, downloadData true s1 = (Ok cloudSettings, s2) →
  (∀ e, parse (or_empty_object (localStorage s2 !! data_key)) = Throw e →
        syncData s = (Ok (Failure (message e)), s2) ∧
        localStorage s2 = localStorage s) ∧
  ∀ localData,
    parse (or_empty_object (localStorage s2 !! data_key)) = Ok localData →
  (∀ e, parse (or_empty_object (localStorage s2 !! settings_key)) = Throw e →
        syncData s = (Ok (Failure (message e)), s2) ∧
        localStorage s2 = localStorage s) ∧
  ∀ localSettings,
    parse (or_empty_object (localStorage s2 !! settings_key)) = Ok localSettings →
  let mergedData := merge localData cloudData in
  let mergedSettings := merge localSettings cloudSettings in
  (storage_full (localStorage s2) data_key (JSON_stringify mergedData) = true →
   syncData s = (Ok (Failure (message QuotaExceededError)), s2) ∧
   localStorage s2 = localStorage s) ∧
  (storage_full (localStorage s2) data_key (JSON_stringify mergedData) = false →
   (storage_full (localStorage (data_written mergedData s2)) settings_key
                 (JSON_stringify mergedSettings) = true →
    syncData s
    = (Ok (Failure (message QuotaExceededError)), data_written mergedData s2) ∧
    localStorage (data_written mergedData s2)
    = <[data_key := JSON_stringify mergedData]> (localStorage s)) ∧
   (storage_full (localStorage (data_written mergedData s2)) settings_key
                 (JSON_stringify mergedSettings) = false →
    let written := locally_written mergedData mergedSettings s2 in
    localStorage written
    = <[settings_key := JSON_stringify mergedSettings]>
        (<[data_key := JSON_stringify mergedData]> (localStorage s)) ∧
    (∀ e s3, uploadData mergedData false written = (Throw e, s3) →
             syncData s = (Ok (Failure (message e)), s3) ∧
             localStorage s3 = localStorage written) ∧
    ∀ uploaded s3, uploadData mergedData false written = (Ok uploaded, s3) →
    (∀ e s4, uploadData mergedSettings true s3 = (Throw e, s4) →
             syncData s = (Ok (Failure (message e)), s4) ∧
             localStorage s4 = localStorage written) ∧
    ∀ uploaded' s4, uploadData mergedSettings true s3 = (Ok uploaded', s4) →
      syncData s = (Ok (Success mergedData), s4) ∧
      localStorage s4 = localStorage written)).
Proof.
  split; [apply syncData_total |].
  split.
  { intros e s1 Hd. split.
    - apply syncData_reports. unfold syncData_try, bind. by rewrite Hd.
    - by destruct (obeys_downloadData _ _ _ _ Hd) as [(_ & _ & Hl & _) _]. }
  intros cloudData s1 Hd1.
  destruct (obeys_downloadData _ _ _ _ Hd1) as [(_ & _ & Hl1 & _) _].
  split.
  { intros e s2 Hd2. split.
    - apply syncData_reports. unfold syncData_try.
      unfold bind at 1. rewrite Hd1. unfold bind at 1. by rewrite Hd2.
    - destruct (obeys_downloadData _ _ _ _ Hd2) as [(_ & _ & Hl2 & _) _].
      congruence. }
  intros cloudSettings s2 Hd2.
  destruct (obeys_downloadData _ _ _ _ Hd2) as [(_ & _ & Hl2 & _) _].
  assert (Hl : localStorage s2 = localStorage s) by congruence.
  split.
  { intros e Hp. split; [| done].
    apply syncData_reports. unfold syncData_try.
    unfold bind at 1. rewrite Hd1. unfold bind at 1. rewrite Hd2.
    unfold bind at 1, getItem at 1, bind at 1, get, ret. simpl.
    unfold bind at 1, lift at 1. by rewrite Hp. }
  intros localData Hp1. split.
  { intros e Hp. split; [| done].
    apply syncData_reports. unfold syncData_try.
    unfold bind at 1. rewrite Hd1. unfold bind at 1. rewrite Hd2.
    unfold bind at 1, getItem at 1, bind at 1, get, ret. simpl.
    unfold bind at 1, lift at 1. rewrite Hp1.
    unfold bind at 1, getItem at 1, bind at 1, get, ret. simpl.
    unfold bind at 1, lift at 1. by rewrite Hp. }
  intros localSettings Hp2 mergedData mergedSettings. split.
  { intros Hq. split; [| done].
    apply syncData_reports. unfold syncData_try.
    unfold bind at 1. rewrite Hd1. unfold bind at 1. rewrite Hd2.
    unfold bind at 1, getItem at 1, bind at 1, get, ret. simpl.
    unfold bind at 1, lift at 1. rewrite Hp1.
    unfold bind at 1, getItem at 1, bind at 1, get, ret. simpl.
    unfold bind at 1, lift at 1. rewrite Hp2.
    unfold bind at 1, setItem at 1. fold mergedData. by rewrite Hq. }
  intros Hq1. split.
  { intros Hq2. split; [| by unfold data_written; simpl; rewrite Hl].
    apply syncData_reports. unfold syncData_try.
    unfold bind at 1. rewrite Hd1. unfold bind at 1. rewrite Hd2.
    unfold bind at 1, getItem at 1, bind at 1, get, ret. simpl.
    unfold bind at 1, lift at 1. rewrite Hp1.
    unfold bind at 1, getItem at 1, bind at 1, get, ret. simpl.
    unfold bind at 1, lift at 1. rewrite Hp2.
    unfold bind at 1, setItem at 1. fold mergedData. rewrite Hq1.
    unfold bind at 1, setItem at 1. fold mergedSettings.
    fold (data_written mergedData s2). by rewrite Hq2. }
  intros Hq2 written.
  pose proof (syncData_try_until_upload _ _ _ _ _ _ _ Hd1 Hd2 Hp1 Hp2 Hq1 Hq2)
    as Htry.
  fold mergedData mergedSettings in Htry. fold written in Htry.
  split; [by unfold written, locally_written; simpl; rewrite Hl |].
  split.
  { intros e s3 Hu.
    destruct (obeys_uploadData _ _ _ _ _ Hu) as [(_ & _ & Hl3 & _) _].
    split; [| done].
    apply syncData_reports. rewrite Htry. unfold bind at 1. by rewrite Hu. }
  intros uploaded s3 Hu1.
  destruct (obeys_uploadData _ _ _ _ _ Hu1) as [(_ & _ & Hl3 & _) _].
  split.
  { intros e s4 Hu2.
    destruct (obeys_uploadData _ _ _ _ _ Hu2) as [(_ & _ & Hl4 & _) _].
    split; [| congruence].
    apply syncData_reports. rewrite Htry. unfold bind at 1. rewrite Hu1.
    unfold bind at 1. by rewrite Hu2. }
  intros uploaded' s4 Hu2.
  destruct (obeys_uploadData _ _ _ _ _ Hu2) as [(_ & _ & Hl4 & _) _].
  split; [| congruence].
  apply syncData_succeeds. rewrite Htry. unfold bind at 1. rewrite Hu1.
  unfold bind at 1. by rewrite Hu2.
Qed.

End SyncFailure.

(** ** The first synchronisation *)

Section FirstSync.

Variable base : Host.

#[local] Abbreviation host := (with_reference_provider base).
#[local] Abbreviation stringify := (@JSON_stringify base).

(** C6. First synchronisation against a provider that holds nothing yet
    (Box or Google Drive dialect), for any local document and local
    settings: both downloads return absent, the merge leaves the local
    document as it is, [syncData] returns success with that document,
    [localStorage] holds the local document and settings again, the
    folder is created by exactly one request, and the two files are
    uploaded by create requests, none by an update request. *)
Theorem first_sync (p : string) (token : option string)
    (storage : gmap string string) (l : location)
    (local settings : gmap string json) :
  p = "box" ∨ p = "gdrive" →
  @parse host (or_empty_object (storage !! data_key)) = Ok (JObj local) →
  @parse host (or_empty_object (storage !! settings_key)) = Ok (JObj settings) →
  @storage_full base storage data_key (stringify (JObj local)) = false →
  @storage_full base (<[data_key := stringify (JObj local)]> storage)
                settings_key (stringify (JObj settings)) = false →
  ∃ s1 s2 s',
    @downloadData host false (first_use p token storage l) = (Ok JNull, s1) ∧
    @downloadData host true s1 = (Ok JNull, s2) ∧
    @syncData host (first_use p token storage l)
      = (Ok (Success (JObj local)), s') ∧
    localStorage s' =
      <[settings_key := stringify (JObj settings)]>
        (<[data_key := stringify (JObj local)]> storage) ∧
    List.length (List.filter is_folder_creation (log s')) = 1%nat ∧
    List.filter is_file_update (log s') = [] ∧
    omap uploaded (List.filter is_file_creation (log s')) =
      [ (fileName, stringify (JObj local));
        (settingsFileName, stringify (JObj settings)) ].
Proof.
  intros [-> | ->] Hp1 Hp2 Hq1 Hq2.
  - eexists _, _, _. split; [reflexivity |]. split; [reflexivity |].
    split.
    + apply (@syncData_succeeds host).
      erewrite (@syncData_try_until_upload host);
        [| reflexivity | reflexivity | exact Hp1 | exact Hp2 | | ].
      * rewrite !merge_null. reflexivity.
      * rewrite !merge_null. exact Hq1.
      * rewrite !merge_null. exact Hq2.
    + repeat split; reflexivity.
  - eexists _, _, _. split; [reflexivity |]. split; [reflexivity |].
    split.
    + apply (@syncData_succeeds host).
      erewrite (@syncData_try_until_upload host);
        [| reflexivity | reflexivity | exact Hp1 | exact Hp2 | | ].
      * rewrite !merge_null. reflexivity.
      * rewrite !merge_null. exact Hq1.
      * rewrite !merge_null. exact Hq2.
    + repeat split; reflexivity.
Qed.

(** The same scenario in the OneDrive dialect, which addresses files by
    path: no folder request is made and both files are put. *)
Lemma first_sync_onedrive (token : option string)
    (storage : gmap string string) (l : location)
    (local settings : gmap string json) :
  @parse host (or_empty_object (storage !! data_key)) = Ok (JObj local) →
  @parse host (or_empty_object (storage !! settings_key)) = Ok (JObj settings) →
  @storage_full base storage data_key (stringify (JObj local)) = false →
  @storage_full base (<[data_key := stringify (JObj local)]> storage)
                settings_key (stringify (JObj settings)) = false →
  ∃ s',
    @syncData host (first_use "onedrive" token storage l)
      = (Ok (Success (JObj local)), s') ∧
    localStorage s' =
      <[settings_key := stringify (JObj settings)]>
        (<[data_key := stringify (JObj local)]> storage) ∧
    List.filter is_folder_creation (log s') = [] ∧
    (fun r => (meth r, body r)) <$> log s' =
      [ (GET, NoBody); (GET, NoBody);
        (PUT, RawBody (stringify (JObj local)));
        (PUT, RawBody (stringify (JObj settings))) ].
Proof.
  intros Hp1 Hp2 Hq1 Hq2. eexists. split.
  - apply (@syncData_succeeds host).
    erewrite (@syncData_try_until_upload host);
      [| reflexivity | reflexivity | exact Hp1 | exact Hp2 | | ].
    + rewrite !merge_null. reflexivity.
    + rewrite !merge_null. exact Hq1.
    + rewrite !merge_null. exact Hq2.
  - repeat split; reflexivity.
Qed.

End FirstSync.

Lemma first_sync_witness :
  ∃ s1 s2 s',
    @downloadData desk_host false
      (first_use "box" (Some "token") desk_storage desk_page) = (Ok JNull, s1) ∧
    @downloadData desk_host true s1 = (Ok JNull, s2) ∧
    @syncData desk_host (first_use "box" (Some "token") desk_storage desk_page)
      = (Ok (Success (JObj {[ "a" := JNum 1; "b" := JNum 2 ]})), s') ∧
    localStorage s' =
      <[settings_key := @JSON_stringify desk_codec (JObj ∅)]>
        (<[data_key := @JSON_stringify desk_codec
                         (JObj {[ "a" := JNum 1; "b" := JNum 2 ]})]>
           desk_storage) ∧
    List.length (List.filter is_folder_creation (log s')) = 1%nat ∧
    List.filter is_file_update (log s') = [] ∧
    omap uploaded (List.filter is_file_creation (log s')) =
      [ (fileName, @JSON_stringify desk_codec
                     (JObj {[ "a" := JNum 1; "b" := JNum 2 ]}));
        (settingsFileName, @JSON_stringify desk_codec (JObj ∅)) ].
Proof.
  apply (first_sync desk_codec "box" (Some "token") desk_storage desk_page
           {[ "a" := JNum 1; "b" := JNum 2 ]} ∅).
  - by left.
  - vm_compute. reflexivity.
  - reflexivity.
  - reflexivity.
  - reflexivity.
Defined.

(** A cycle interrupted between the local write and the upload: the
    provider serves no file and accepts none. The merged document is
    in [localStorage], the result is a failure, one upload was tried. *)
Example sync_interrupted_by_upload :
  let run := @syncData read_only_host
               (first_use "onedrive" (Some "token") desk_storage desk_page) in
  run.1 = Ok (Failure "Failed to upload to OneDrive") ∧
  localStorage run.2 !! data_key = Some (flat_stringify local_document) ∧
  localStorage run.2 !! settings_key = Some "{}" ∧
  meth <$> log run.2 = [GET; GET; PUT].
Proof. vm_compute. repeat split. Qed.

(** A cycle interrupted between the two local writes: the storage takes
    the merged data and refuses the settings. The merged data stay in
    [localStorage], the settings were not written, nothing was uploaded. *)
Example sync_interrupted_by_quota :
  let run := @syncData cramped_host
               (first_use "onedrive" (Some "token") desk_storage desk_page) in
  run.1 = Ok (Failure "") ∧
  localStorage run.2 !! data_key = Some (flat_stringify local_document) ∧
  localStorage run.2 !! settings_key = None ∧
  meth <$> log run.2 = [GET; GET].
Proof. vm_compute. repeat split. Qed.

(** A cycle interrupted between the two uploads: the provider has the
    data and not the settings, [localStorage] has both. *)
Example sync_interrupted_by_second_upload :
  let run := @syncData write_once_host
               (first_use "onedrive" (Some "token") desk_storage desk_page) in
  run.1 = Ok (Failure "Failed to upload to OneDrive") ∧
  localStorage run.2 !! data_key = Some (flat_stringify local_document) ∧
  localStorage run.2 !! settings_key = Some "{}" ∧
  meth <$> log run.2 = [GET; GET; PUT; PUT].
Proof. vm_compute. repeat split. Qed.

(** ** Unauthorized answers *)

(** C2, as stated, fails: with a provider that answers 401 to every
    request, an upload ends in the same generic error as with a provider
    that answers 500, and the credential is still in the instance and in
    [localStorage]. *)
Lemma unauthorized_upload_keeps_credential :
  let s := set_folderId (Some (JStr "1")) (connected "box" "token") in
  let run := @uploadData unauthorized_host local_document false s in
  run.1 = Throw (Error "Failed to upload to Box") ∧
  run.1 = (@uploadData offline_host local_document false s).1 ∧
  accessToken run.2 = Some "token" ∧
  localStorage run.2 !! "box_access_token" = Some "token" ∧
  ¬ credential_purged run.2.
Proof.
  vm_compute. repeat split. intros [Ht _]. discriminate.
Qed.

(** *** What the adapters read of an answer

    The adapters read three things of an answer: whether its status is in
    200-299, whether it is 404 (in [downloadFromOneDrive]), and its body.
    A provider whose answers differ from another's only in which failure
    status they carry is therefore the same provider to every operation
    of the class. *)

Section Alike.

Context {host : Host}.

Variable answers : list request → request → fetch_outcome.

Hypothesis answers_alike :
  ∀ l r, alike_outcome (answers l r) (@respond host l r).

#[local] Abbreviation other := (with_provider answers host).

Lemma same_refl {A} (c : M A) : same c c.
Proof. by intros s. Qed.

Lemma same_bind {A B} (c c' : M A) (k k' : A → M B) :
  same c c' → (∀ a, same (k a) (k' a)) → same (bind c k) (bind c' k').
Proof.
  intros Hc Hk s. unfold bind. rewrite (Hc s).
  destruct (c' s) as [[a | e] s']; [apply Hk | done].
Qed.

Lemma same_answer_bind {B} (c c' : M response) (k k' : response → M B) :
  same_answer c c' →
  (∀ a b, alike a b → same (k a) (k' b)) →
  same (bind c k) (bind c' k').
Proof.
  intros Hc Hk s. unfold bind. specialize (Hc s).
  destruct (c s) as [[a | e] s1], (c' s) as [[b | e'] s2]; try done.
  - destruct Hc as [Hab <-]. by apply Hk.
  - by destruct Hc as [<- <-].
Qed.

Lemma same_try_catch {A} (c c' : M A) (h h' : js_error → M A) :
  same c c' → (∀ e, same (h e) (h' e)) → same (try_catch c h) (try_catch c' h').
Proof.
  intros Hc Hh s. unfold try_catch. rewrite (Hc s).
  destruct (c' s) as [[a | e] s']; [done | apply Hh].
Qed.

Lemma same_fetch_authorized m t b :
  same_answer (@fetch_authorized other m t b) (@fetch_authorized host m t b).
Proof.
  intros s. unfold fetch_authorized, bind, get, fetch. simpl.
  pose proof (answers_alike (log s) (Request m t (accessToken s) b)) as Ha.
  destruct (answers _ _), (respond _ _); simpl in Ha; done.
Qed.

Lemma alike_ok a b : alike a b → ok a = ok b.
Proof.
  intros [_ [Hs | (Ha & Hb & _)]]; [unfold ok; by rewrite Hs | congruence].
Qed.

Lemma alike_404 a b : alike a b → (status a =? 404) = (status b =? 404).
Proof.
  intros [_ [Hs | (_ & _ & Ha & Hb)]]; [by rewrite Hs |].
  apply Z.eqb_neq in Ha, Hb. congruence.
Qed.

Lemma alike_json_of a b : alike a b → json_of a = json_of b.
Proof. intros [Hj _]. unfold json_of. by rewrite Hj. Qed.

Ltac same_step :=
  cbv zeta;
  first
    [ apply same_refl
    | assumption
    | match goal with H : ∀ _, same _ _ |- _ => apply H end
    | match goal with H : ∀ _ _, same _ _ |- _ => apply H end
    | match goal with
      | |- same (bind (fetch_authorized _ _ _) _) (bind (fetch_authorized _ _ _) _) =>
          apply same_answer_bind;
          [ apply same_fetch_authorized
          | let a := fresh "a" in
            let b := fresh "b" in
            let Hab := fresh "Hab" in
            intros a b Hab;
            rewrite ?(alike_ok a b Hab), ?(alike_404 a b Hab),
                    ?(alike_json_of a b Hab) ]
      | |- same (bind _ _) (bind _ _) => apply same_bind; [| intros ?]
      | |- same (try_catch _ _) (try_catch _ _) =>
          apply same_try_catch; [| intros ?]
      | |- same (if ?x then _ else _) _ => destruct x
      | |- same (match ?x with _ => _ end) _ => destruct x
      end ].

Lemma same_ensureBoxFolder :
  same (@ensureBoxFolder other) (@ensureBoxFolder host).
Proof. unfold ensureBoxFolder. repeat same_step. Qed.

Lemma same_ensureGDriveFolder :
  same (@ensureGDriveFolder other) (@ensureGDriveFolder host).
Proof. unfold ensureGDriveFolder. repeat same_step. Qed.

Lemma same_findBoxFile name folder :
  same (@findBoxFile other name folder) (@findBoxFile host name folder).
Proof. unfold findBoxFile. repeat same_step. Qed.

Lemma same_findGDriveFile name folder :
  same (@findGDriveFile other name folder) (@findGDriveFile host name folder).
Proof. unfold findGDriveFile. repeat same_step. Qed.

Lemma same_uploadData data isSettings :
  same (@uploadData other data isSettings) (@uploadData host data isSettings).
Proof.
  pose proof same_ensureBoxFolder. pose proof same_ensureGDriveFolder.
  pose proof same_findBoxFile. pose proof same_findGDriveFile.
  unfold uploadData, uploadToBox, uploadToOneDrive, uploadToGDrive.
  repeat same_step.
Qed.

Lemma same_downloadData isSettings :
  same (@downloadData other isSettings) (@downloadData host isSettings).
Proof.
  pose proof same_ensureBoxFolder. pose proof same_ensureGDriveFolder.
  pose proof same_findBoxFile. pose proof same_findGDriveFile.
  unfold downloadData, downloadFromBox, downloadFromOneDrive, downloadFromGDrive.
  repeat same_step.
Qed.

Lemma same_syncData : same (@syncData other) (@syncData host).
Proof.
  pose proof same_uploadData. pose proof same_downloadData.
  unfold syncData, syncData_try. repeat same_step.
Qed.

End Alike.

Section Unauthorized.

Context {host : Host}.

Lemma restatus_alike c l r :
  c < 200 ∨ 299 < c → c ≠ 404 →
  alike_outcome (restatus 401 c (respond l r)) (respond l r).
Proof.
  intros Hc H404. unfold restatus.
  destruct (respond l r) as [a |]; [| done].
  destruct (Z.eqb_spec (status a) 401) as [Ha | Ha]; simpl.
  - split; [done |]. right.
    split; [| split; [| split]].
    + unfold ok. simpl. apply andb_false_iff.
      destruct Hc; [left | right]; by apply Z.leb_gt.
    + unfold ok. by rewrite Ha.
    + done.
    + by rewrite Ha.
  - split; [done | by left].
Qed.

(** C2, amended. Whatever the provider answers, a 401 included, every
    adapter operation (upload, download, file lookup, folder resolution,
    for every provider) leaves the provider selection and the stored
    credential as they are, in the instance and in [localStorage], and
    raises no error of its own other than the generic ['Failed to ...']
    and ['No provider configured'] errors. And a 401 is handled like any
    other failure status: with a provider that answers any status [c]
    outside 200-299 other than 404 wherever the provider at hand answers
    401, every adapter operation and [syncData] return the same value or
    raise the same error, in the same final state, after the same
    requests. (The 404 is set apart because [downloadFromOneDrive] reads
    it as an absent file.) So nothing tells the caller that the
    authentication has expired. *)
Theorem adapter_keeps_credential :
  (∀ data isSettings, obeys (uploadData data isSettings)) ∧
  (∀ isSettings, obeys (downloadData isSettings)) ∧
  (∀ name folder, obeys (findBoxFile name folder)) ∧
  (∀ name folder, obeys (findGDriveFile name folder)) ∧
  obeys ensureBoxFolder ∧
  obeys ensureGDriveFolder ∧
  (∀ {A} (c : M A) s r s',
      obeys c → c s = (r, s') →
      accessToken s' = accessToken s ∧
      localStorage s' !! token_key (provider s') =
        localStorage s !! token_key (provider s) ∧
      ∀ msg, r = Throw (Error msg) → msg ∈ failure_messages) ∧
  (∀ c, c < 200 ∨ 299 < c → c ≠ 404 →
     let other := answering_instead 401 c host in
     (∀ data isSettings s,
        @uploadData other data isSettings s = @uploadData host data isSettings s) ∧
     (∀ isSettings s,
        @downloadData other isSettings s = @downloadData host isSettings s) ∧
     (∀ name folder s,
        @findBoxFile other name folder s = @findBoxFile host name folder s) ∧
     (∀ name folder s,
        @findGDriveFile other name folder s = @findGDriveFile host name folder s) ∧
     (∀ s, @ensureBoxFolder other s = @ensureBoxFolder host s) ∧
     (∀ s, @ensureGDriveFolder other s = @ensureGDriveFolder host s) ∧
     (∀ s, @syncData other s = @syncData host s)).
Proof.
  split; [apply obeys_uploadData |].
  split; [apply obeys_downloadData |].
  split; [apply obeys_findBoxFile |].
  split; [apply obeys_findGDriveFile |].
  split; [apply obeys_ensureBoxFolder |].
  split; [apply obeys_ensureGDriveFolder |].
  split.
  { intros A c s r s' Hc Hrun.
    destruct (Hc _ _ _ Hrun) as [(Hp & Ha & Hl & _) He].
    split; [done |]. split; [by rewrite Hp, Hl |].
    intros msg ->. exact (He _ eq_refl). }
  intros c Hc H404 other.
  assert (Halike : ∀ l r,
            alike_outcome (restatus 401 c (@respond host l r)) (@respond host l r))
    by (intros; by apply restatus_alike).
  split; [intros data isSettings; apply (same_uploadData _ Halike) |].
  split; [intros isSettings; apply (same_downloadData _ Halike) |].
  split; [intros name folder; apply (same_findBoxFile _ Halike) |].
  split; [intros name folder; apply (same_findGDriveFile _ Halike) |].
  split; [apply (same_ensureBoxFolder _ Halike) |].
  split; [apply (same_ensureGDriveFolder _ Halike) |].
  apply (same_syncData _ Halike).
Qed.

(** The credential is purged by [disconnect], which no adapter operation
    calls. *)
Lemma disconnect_purges s r s' :
  disconnect s = (r, s') → r = Ok tt ∧ credential_purged s'.
Proof.
  unfold disconnect, bind, get, removeItem, modify. intros [= <- <-].
  split; [done |]. split; [done |]. simpl. apply lookup_delete_eq.
Qed.

End Unauthorized.

(** ** A file that is gone when its content is fetched *)

Section ContentNotFound.

Context `{Host}.

(** The OneDrive adapter reads a 404 to the content request as an absent
    file. *)
Lemma downloadFromOneDrive_404 name s r :
  respond (log s)
    (Request GET (OneDriveContent folderName name) (accessToken s) NoBody)
    = Answer r →
  status r = 404 →
  ∃ s', downloadFromOneDrive name s = (Ok JNull, s').
Proof.
  intros Hr Hs. unfold downloadFromOneDrive, fetch_authorized, fetch, bind, get.
  simpl. rewrite Hr, Hs. by eexists.
Qed.

(** The Box and the Google Drive adapter raise their generic error for
    every answer to the content request that is not ok, a 404 included. *)
Lemma downloadFromBox_content_not_ok name s folder s1 file s2 r :
  ensureBoxFolder s = (Ok folder, s1) →
  findBoxFile name folder s1 = (Ok file, s2) →
  js_truthy file = true →
  respond (log s2) (Request GET (BoxFileContent file) (accessToken s2) NoBody)
    = Answer r →
  ok r = false →
  ∃ s', downloadFromBox name s = (Throw (Error "Failed to download from Box"), s').
Proof.
  intros He Hf Ht Hr Hok. unfold downloadFromBox.
  unfold bind at 1. rewrite He. unfold bind at 1. rewrite Hf, Ht. simpl.
  unfold fetch_authorized, fetch, bind, get. simpl. rewrite Hr, Hok.
  by eexists.
Qed.

Lemma downloadFromGDrive_content_not_ok name s folder s1 file s2 r :
  ensureGDriveFolder s = (Ok folder, s1) →
  findGDriveFile name folder s1 = (Ok file, s2) →
  js_truthy file = true →
  respond (log s2) (Request GET (GDriveFileMedia file) (accessToken s2) NoBody)
    = Answer r →
  ok r = false →
  ∃ s', downloadFromGDrive name s =
          (Throw (Error "Failed to download from Google Drive"), s').
Proof.
  intros He Hf Ht Hr Hok. unfold downloadFromGDrive.
  unfold bind at 1. rewrite He. unfold bind at 1. rewrite Hf, Ht. simpl.
  unfold fetch_authorized, fetch, bind, get. simpl. rewrite Hr, Hok.
  by eexists.
Qed.

(** A file that the lookup does not find is absent, not an error. *)
Lemma downloadFromBox_absent name s folder s1 file s2 :
  ensureBoxFolder s = (Ok folder, s1) →
  findBoxFile name folder s1 = (Ok file, s2) →
  js_truthy file = false →
  downloadFromBox name s = (Ok JNull, s2).
Proof.
  intros He Hf Ht. unfold downloadFromBox.
  unfold bind at 1. rewrite He. unfold bind at 1. by rewrite Hf, Ht.
Qed.

Lemma downloadFromGDrive_absent name s folder s1 file s2 :
  ensureGDriveFolder s = (Ok folder, s1) →
  findGDriveFile name folder s1 = (Ok file, s2) →
  js_truthy file = false →
  downloadFromGDrive name s = (Ok JNull, s2).
Proof.
  intros He Hf Ht. unfold downloadFromGDrive.
  unfold bind at 1. rewrite He. unfold bind at 1. by rewrite Hf, Ht.
Qed.

End ContentNotFound.

(** C3 at a provider that lists the planner's file and answers 404 when its
    content is fetched: the OneDrive adapter returns absent, the Box and the
    Google Drive adapter raise their generic download error. *)
Theorem content_404_not_normalized :
  (@downloadData vanishing_host false (connected "onedrive" "token")).1
    = Ok JNull ∧
  (@downloadData vanishing_host false (connected "box" "token")).1
    = Throw (Error "Failed to download from Box") ∧
  (@downloadData vanishing_host false (connected "gdrive" "token")).1
    = Throw (Error "Failed to download from Google Drive") ∧
  target <$> log (@downloadData vanishing_host false (connected "box" "token")).2
    = [ BoxSearch folderName "folder";
        BoxFolderItems (Some (JStr "1"));
        BoxFileContent (Some (JStr "2")) ].
Proof. vm_compute. repeat split. Qed.

(** ** The OAuth callback *)

Section Callback.

Context `{Host}.


(** The handler on a fragment without a usable access token. *)
Lemma handleAuthCallback_no_token s :
  params_get (URLSearchParams (substring1 (hash (window_location s))))
             "access_token" = None ∨
  params_get (URLSearchParams (substring1 (hash (window_location s))))
             "access_token" = Some "" →
  handleAuthCallback s = (Ok false, s).
Proof.
  intros [Hget | Hget]; unfold handleAuthCallback, bind at 1, get; simpl;
    by rewrite Hget.
Qed.



(** C9, amended. When the fragment carries an [error] parameter and no
    access token, [handleAuthCallback] returns [false] and changes
    nothing, exactly as it does for a missing fragment or one without an
    access token: the provider's error is not surfaced. *)
Theorem callback_without_token s :
  params_get (URLSearchParams (substring1 (hash (window_location s))))
             "access_token" = None →
  handleAuthCallback s = (Ok false, s).
Proof. intros Hget. apply handleAuthCallback_no_token. by left. Qed.

(** The handler of the calendar module keeps the expiry instant, in
    milliseconds. *)
Lemma GoogleCalendar_callback_token s now t e n :
  let fragment := substring1 (hash (window_location s)) in
  fragment ≠ "" →
  params_get (URLSearchParams fragment) "access_token" = Some t →
  t ≠ "" →
  params_get (URLSearchParams fragment) "expires_in" = Some e →
  e ≠ "" →
  parseInt e = Some n →
  storage_full (localStorage s) "google_calendar_access_token" t = false →
  storage_full (<["google_calendar_access_token" := t]> (localStorage s))
               "google_calendar_token_expiry" (pretty (now + n * 1000))
    = false →
  GoogleCalendar.handleAuthCallback now s =
    (Ok true,
     State (provider s) (Some t) (folderId s)
           (<["google_calendar_token_expiry" := pretty (now + n * 1000)]>
              (<["google_calendar_access_token" := t]> (localStorage s)))
           (Location (pathname (window_location s)) "" "")
           (log s)).
Proof.
  intros fragment Hf Ht Htne He Hene Hn Hq1 Hq2.
  unfold GoogleCalendar.handleAuthCallback, bind at 1, get. simpl.
  fold fragment. apply String.eqb_neq in Hf, Htne, Hene.
  rewrite Hf, Ht, He, Htne, Hene, Hn. simpl.
  unfold bind, modify, setItem, replaceState_pathname, ret. simpl.
  rewrite Hq1. simpl. by rewrite Hq2.
Qed.

Lemma GoogleCalendar_callback_stores_expiry s now :
  hash (window_location s) = "#access_token=XYZ&expires_in=3600" →
  storage_full (localStorage s) "google_calendar_access_token" "XYZ" = false →
  storage_full (<["google_calendar_access_token" := "XYZ"]> (localStorage s))
               "google_calendar_token_expiry" (pretty (now + 3600 * 1000))
    = false →
  ∃ s', GoogleCalendar.handleAuthCallback now s = (Ok true, s') ∧
        accessToken s' = Some "XYZ" ∧
        localStorage s' !! "google_calendar_token_expiry"
          = Some (pretty (now + 3600 * 1000)) ∧
        hash (window_location s') = "".
Proof.
  intros Hh Hq1 Hq2. eexists. split.
  - apply (GoogleCalendar_callback_token s now "XYZ" "3600" 3600);
      rewrite ?Hh; done.
  - split; [done |]. split; [| done]. apply lookup_insert_eq.
Qed.

End Callback.


Lemma callback_without_token_witness :
  @handleAuthCallback offline_host (callback_page "box" "#error=access_denied") =
    (Ok false, callback_page "box" "#error=access_denied").
Proof.
  apply (@callback_without_token offline_host
           (callback_page "box" "#error=access_denied")).
  reflexivity.
Defined.


(** C9, as stated, fails: the callback [error=access_denied] gives what a
    page load without any fragment gives, the value [false] and an unchanged
    state; nothing is raised. *)
Lemma callback_error_not_surfaced :
  @handleAuthCallback offline_host (callback_page "box" "#error=access_denied") =
    (Ok false, callback_page "box" "#error=access_denied") ∧
  @handleAuthCallback offline_host (callback_page "box" "") =
    (Ok false, callback_page "box" "") ∧
  (@handleAuthCallback offline_host (callback_page "box" "#error=access_denied")).1 =
  (@handleAuthCallback offline_host (callback_page "box" "")).1.
Proof. vm_compute. repeat split. Qed.

(** * Further properties of the synchronisation engine *)

(** ** Rules for [along] *)

Section Along.

Context `{Host}.
Variable R : state → state → Prop.
Hypothesis R_refl : ∀ s, R s s.
Hypothesis R_trans : ∀ s1 s2 s3, R s1 s2 → R s2 s3 → R s1 s3.

Lemma along_ret {A} (a : A) : along R (ret a).
Proof. by intros s r s' [= <- <-]. Qed.

Lemma along_get : along R get.
Proof. by intros s r s' [= <- <-]. Qed.

Lemma along_lift {A} (x : result A) : along R (lift x).
Proof. by intros s r s' [= <- <-]. Qed.

Lemma along_throw {A} (e : js_error) : along R (@throw A e).
Proof. by intros s r s' [= <- <-]. Qed.

Lemma along_json_of r : along R (json_of r).
Proof. unfold json_of. destruct (json_body r); [apply along_ret | apply along_throw]. Qed.

Lemma along_bind {A B} (c : M A) (k : A → M B) :
  along R c → (∀ a, along R (k a)) → along R (bind c k).
Proof.
  intros Hc Hk s r s'. unfold bind.
  destruct (c s) as [[a|e] s1] eqn:Ec; intros Hr.
  - eapply R_trans; [by eapply Hc | by eapply Hk].
  - injection Hr as <- <-. by eapply Hc.
Qed.

Lemma along_try_catch {A} (c : M A) (h : js_error → M A) :
  along R c → (∀ e, along R (h e)) → along R (try_catch c h).
Proof.
  intros Hc Hh s r s'. unfold try_catch.
  destruct (c s) as [[a|e] s1] eqn:Ec; intros Hr.
  - injection Hr as <- <-. by eapply Hc.
  - eapply R_trans; [by eapply Hc | by eapply Hh].
Qed.

End Along.

Ltac along_step rf tr :=
  match goal with
  | |- along _ (bind _ _) => apply (along_bind _ tr); [| intros ?]
  | |- along _ (ret _) => apply (along_ret _ rf)
  | |- along _ get => apply (along_get _ rf)
  | |- along _ (lift _) => apply (along_lift _ rf)
  | |- along _ (throw _) => apply (along_throw _ rf)
  | |- along _ (json_of _) => apply (along_json_of _ rf)
  | |- along _ (try_catch _ _) => apply (along_try_catch _ tr); [| intros ?]
  | |- along _ (if ?b then _ else _) => destruct b
  | |- along _ (match ?x with _ => _ end) => destruct x
  end.

(** ** Every request carries the token *)

Section Authorized.

Context `{Host}.

Lemma authorized_refl s : authorized s s.
Proof. split; [done |]. exists []. by rewrite app_nil_r. Qed.

Lemma authorized_trans s1 s2 s3 :
  authorized s1 s2 → authorized s2 s3 → authorized s1 s3.
Proof.
  intros (Ha & i & Hi & Fi) (Ha' & i' & Hi' & Fi'). split; [congruence |].
  exists (i ++ i'). split; [by rewrite Hi', Hi, (assoc_L (++)) |].
  apply Forall_app. split; [done |]. by rewrite Ha in Fi'.
Qed.

Lemma authorized_quiet s s' :
  accessToken s' = accessToken s → log s' = log s → authorized s s'.
Proof. intros Ha Hl. split; [done |]. exists []. by rewrite app_nil_r. Qed.

Ltac authorized_auto :=
  repeat along_step authorized_refl authorized_trans.

Lemma authorized_fetch_authorized m t b :
  along authorized (fetch_authorized m t b).
Proof.
  intros s r s'. unfold fetch_authorized, fetch, bind, get.
  case_match; intros [= <- <-]; (split; [done |]);
    exists [Request m t (accessToken s) b]; split; try done;
    by repeat constructor.
Qed.

Lemma authorized_modify_folderId f : along authorized (modify (set_folderId f)).
Proof. intros s r s' [= <- <-]. by apply authorized_quiet. Qed.

Lemma authorized_setItem k v : along authorized (setItem k v).
Proof.
  intros s r s'. unfold setItem. case_match; intros [= <- <-];
    by apply authorized_quiet.
Qed.

Lemma authorized_getItem k : along authorized (getItem k).
Proof. intros s r s' [= <- <-]. apply authorized_refl. Qed.

Hint Resolve authorized_fetch_authorized authorized_modify_folderId
  authorized_setItem authorized_getItem : core.

Lemma authorized_ensureBoxFolder : along authorized ensureBoxFolder.
Proof. unfold ensureBoxFolder. authorized_auto; auto. Qed.

Lemma authorized_ensureGDriveFolder : along authorized ensureGDriveFolder.
Proof. unfold ensureGDriveFolder. authorized_auto; auto. Qed.

Lemma authorized_findBoxFile name folder : along authorized (findBoxFile name folder).
Proof. unfold findBoxFile. authorized_auto; auto. Qed.

Lemma authorized_findGDriveFile name folder :
  along authorized (findGDriveFile name folder).
Proof. unfold findGDriveFile. authorized_auto; auto. Qed.

Hint Resolve authorized_ensureBoxFolder authorized_ensureGDriveFolder
  authorized_findBoxFile authorized_findGDriveFile : core.

Lemma authorized_uploadData data isSettings :
  along authorized (uploadData data isSettings).
Proof.
  unfold uploadData, uploadToBox, uploadToOneDrive, uploadToGDrive.
  authorized_auto; auto.
Qed.

Lemma authorized_downloadData isSettings :
  along authorized (downloadData isSettings).
Proof.
  unfold downloadData, downloadFromBox, downloadFromOneDrive, downloadFromGDrive.
  authorized_auto; auto.
Qed.

Hint Resolve authorized_uploadData authorized_downloadData : core.

(** Whatever the provider answers, every request that an upload, a
    download or a whole synchronisation issues carries the access token
    that the instance held when the operation started, and the instance
    holds the same token afterwards. *)
Theorem requests_carry_token :
  (∀ data isSettings, along authorized (uploadData data isSettings)) ∧
  (∀ isSettings, along authorized (downloadData isSettings)) ∧
  along authorized syncData ∧
  (∀ s x s', syncData s = (x, s') →
             ∃ issued, log s' = log s ++ issued ∧
                       Forall (fun r => bearer r = accessToken s) issued).
Proof.
  assert (Hsync : along authorized syncData).
  { unfold syncData, syncData_try. authorized_auto; auto. }
  split; [apply authorized_uploadData |].
  split; [apply authorized_downloadData |].
  split; [done |].
  intros s x s' Hrun. by destruct (Hsync _ _ _ Hrun) as [_ ?].
Qed.

End Authorized.

(** ** What a synchronisation touches *)

Section Footprint.

Context `{Host}.

Lemma footprint_refl s : sync_footprint s s.
Proof. repeat split; try done. exists []. by rewrite app_nil_r. Qed.

Lemma footprint_trans s1 s2 s3 :
  sync_footprint s1 s2 → sync_footprint s2 s3 → sync_footprint s1 s3.
Proof.
  intros (Hp & Ha & Hw & Hl & i & Hi) (Hp' & Ha' & Hw' & Hl' & i' & Hi').
  repeat split; try congruence.
  - intros k K1 K2. by rewrite Hl', Hl.
  - exists (i ++ i'). by rewrite Hi', Hi, (assoc_L (++)).
Qed.

Lemma frame_footprint s s' : frame s s' → sync_footprint s s'.
Proof.
  intros (Hp & Ha & Hl & Hw & Hi). repeat split; try done.
  intros k _ _. by rewrite Hl.
Qed.

Lemma footprint_obeys {A} (c : M A) : obeys c → along sync_footprint c.
Proof. intros Hc s r s' Hrun. apply frame_footprint. by destruct (Hc _ _ _ Hrun). Qed.

Lemma footprint_getItem k : along sync_footprint (getItem k).
Proof. intros s r s' [= <- <-]. apply footprint_refl. Qed.

Lemma footprint_setItem_data v : along sync_footprint (setItem data_key v).
Proof.
  intros s r s'. unfold setItem. case_match; intros [= <- <-];
    [apply footprint_refl |].
  repeat split; try done.
  - intros k K1 K2. simpl. by rewrite lookup_insert_ne.
  - exists []. simpl. by rewrite app_nil_r.
Qed.

Lemma footprint_setItem_settings v : along sync_footprint (setItem settings_key v).
Proof.
  intros s r s'. unfold setItem. case_match; intros [= <- <-];
    [apply footprint_refl |].
  repeat split; try done.
  - intros k K1 K2. simpl. by rewrite lookup_insert_ne.
  - exists []. simpl. by rewrite app_nil_r.
Qed.

(** Whatever the provider answers and however the cycle ends, [syncData]
    leaves the provider selection, the access token and the address of the
    page as they are, and changes no entry of [localStorage] other than
    the planner document and the planner settings. *)
Theorem syncData_footprint s x s' :
  syncData s = (x, s') →
  provider s' = provider s ∧
  accessToken s' = accessToken s ∧
  window_location s' = window_location s ∧
  (∀ k, k ≠ data_key → k ≠ settings_key →
        localStorage s' !! k = localStorage s !! k) ∧
  ∃ issued, log s' = log s ++ issued.
Proof.
  revert s x s'. change (along sync_footprint syncData).
  unfold syncData, syncData_try.
  repeat along_step footprint_refl footprint_trans;
    auto using footprint_getItem, footprint_setItem_data,
      footprint_setItem_settings, footprint_obeys, obeys_downloadData,
      obeys_uploadData.
Qed.

End Footprint.

(** ** Provider selection *)

Section Provider.

Context `{Host}.

Lemma is_provider_false p name : p ≠ Some name → is_provider p name = false.
Proof.
  destruct p as [q|]; [| done]. intros Hne. simpl.
  apply String.eqb_neq. congruence.
Qed.

(** When the selected provider is none of ['box'], ['onedrive'], ['gdrive']
    (also when none is selected), an upload and a download raise
    ['No provider configured'] without issuing a request, and [syncData]
    reports that failure without having read or written anything. *)
Theorem unconfigured_provider s :
  provider s ≠ Some "box" →
  provider s ≠ Some "onedrive" →
  provider s ≠ Some "gdrive" →
  (∀ data isSettings,
      uploadData data isSettings s = (Throw (Error "No provider configured"), s)) ∧
  (∀ isSettings,
      downloadData isSettings s = (Throw (Error "No provider configured"), s)) ∧
  syncData s = (Ok (Failure "No provider configured"), s).
Proof.
  intros Hb Ho Hg.
  apply is_provider_false in Hb, Ho, Hg.
  assert (Hd : ∀ isSettings,
    downloadData isSettings s = (Throw (Error "No provider configured"), s)).
  { intros b. unfold downloadData, bind, get. by rewrite Hb, Ho, Hg. }
  split; [| split; [done |]].
  - intros data b. unfold uploadData, bind, get. by rewrite Hb, Ho, Hg.
  - unfold syncData, try_catch, syncData_try. unfold bind at 1. by rewrite Hd.
Qed.

Lemma initialize_run p s :
  ∃ b : bool, initialize p s =
         (Ok b, if b then set_accessToken
                            (localStorage s !! token_key (Some p))
                            (set_provider (Some p) s)
                else set_provider (Some p) s) ∧
       (b = true ↔ ∃ t, localStorage s !! token_key (Some p) = Some t ∧ t ≠ "").
Proof.
  unfold initialize, bind, modify, getItem, get, ret. simpl.
  destruct (localStorage s !! token_key (Some p)) as [t|] eqn:Ht.
  - destruct (String.eqb t "") eqn:Et; simpl.
    + exists false. split; [done |]. split; [done |].
      intros (t' & [= <-] & Hne). by apply String.eqb_eq in Et.
    + exists true. split; [done |]. split; [| done].
      intros _. exists t. split; [done |]. by apply String.eqb_neq.
  - exists false. split; [done |]. split; [done |]. by intros (t' & ? & _).
Qed.

(** [initialize] clears nothing. After a folder identifier was resolved
    for Box, selecting another provider keeps it in the cache, and
    [ensureGDriveFolder] returns the Box identifier without a request.
    When no token is saved for the newly selected provider, [initialize]
    returns [false] and the instance goes on holding the token of the
    previous provider. *)
Theorem initialize_keeps_session p s v s1 :
  ensureBoxFolder s = (Ok v, s1) →
  js_truthy v = true →
  ∃ b s2,
    initialize p s1 = (Ok b, s2) ∧
    provider s2 = Some p ∧
    ensureGDriveFolder s2 = (Ok v, s2) ∧
    (localStorage s1 !! token_key (Some p) = None →
     b = false ∧ accessToken s2 = accessToken s1).
Proof.
  intros Hrun Hv.
  destruct (ensureBoxFolder_run _ _ _ Hrun) as [Hid _].
  specialize (Hid v eq_refl).
  destruct (initialize_run p s1) as (b & Hi & Hb).
  exists b. eexists. split; [exact Hi |].
  assert (Hf : folderId (if b then set_accessToken
                                      (localStorage s1 !! token_key (Some p))
                                      (set_provider (Some p) s1)
                         else set_provider (Some p) s1) = v)
    by (by destruct b).
  split; [by destruct b |]. split.
  - rewrite <- Hf at 1. apply ensureGDriveFolder_cached. by rewrite Hf.
  - intros Hnone. destruct b; [| done].
    destruct Hb as [Hb _]. destruct (Hb eq_refl) as (t & Ht & _). congruence.
Qed.

End Provider.

(** ** The credential in [localStorage] *)

Section Credential.

Context `{Host}.

Lemma last_char_app (p q : string) :
  q ≠ "" → last_char (p +:+ q) = last_char q.
Proof.
  intros Hq. induction p as [| a p IH]; [done |].
  simpl. destruct (p +:+ q) eqn:E; [| by rewrite <- IH].
  destruct p; [| done]. change q with ("" +:+ q) in Hq. congruence.
Qed.

Lemma string_length_app (p q : string) :
  String.length (p +:+ q) = (String.length p + String.length q)%nat.
Proof. induction p as [| a p IH]; [done |]. simpl. by rewrite IH. Qed.

Lemma string_app_inv_tail (p q suffix : string) :
  p +:+ suffix = q +:+ suffix → p = q.
Proof.
  revert q. induction p as [| a p IH]; intros q Heq.
  - destruct q as [| b q]; [done |]. exfalso.
    apply (f_equal String.length) in Heq.
    rewrite !string_length_app in Heq. simpl in Heq. lia.
  - destruct q as [| b q].
    + exfalso. apply (f_equal String.length) in Heq.
      rewrite !string_length_app in Heq. simpl in Heq. lia.
    + simpl in Heq. injection Heq as -> Heq. f_equal. by apply IH.
Qed.

Lemma token_key_inj p q : token_key (Some p) = token_key (Some q) → p = q.
Proof. apply string_app_inv_tail. Qed.

Lemma token_key_not_planner p :
  token_key p ≠ data_key ∧ token_key p ≠ settings_key.
Proof.
  split; intros Heq; apply (f_equal last_char) in Heq;
    unfold token_key in Heq; by rewrite last_char_app in Heq.
Qed.


(** [disconnect] forgets the token of the selected provider, in the
    instance and in [localStorage], and the cached folder identifier. It
    leaves every other entry of [localStorage] as it is, in particular the
    planner document, the planner settings and the tokens saved for other
    providers; an [initialize] for the same provider then returns
    [false]. *)
Theorem disconnect_scope s :
  ∃ s', disconnect s = (Ok tt, s') ∧
        accessToken s' = None ∧
        folderId s' = js_null ∧
        provider s' = provider s ∧
        localStorage s' !! token_key (provider s) = None ∧
        (∀ k, k ≠ token_key (provider s) →
              localStorage s' !! k = localStorage s !! k) ∧
        localStorage s' !! data_key = localStorage s !! data_key ∧
        localStorage s' !! settings_key = localStorage s !! settings_key ∧
        (∀ p q, provider s = Some p → q ≠ p →
                localStorage s' !! token_key (Some q) =
                localStorage s !! token_key (Some q)) ∧
        (∀ p, provider s = Some p →
              ∃ s'', initialize p s' = (Ok false, s'') ∧ accessToken s'' = None).
Proof.
  eexists. split; [reflexivity |]. simpl.
  assert (Hother : ∀ k, k ≠ token_key (provider s) →
    delete (token_key (provider s)) (localStorage s) !! k = localStorage s !! k).
  { intros k Hk. by rewrite lookup_delete_ne. }
  destruct (token_key_not_planner (provider s)) as [Hd Hs].
  repeat split; try done.
  - apply lookup_delete_eq.
  - by apply Hother.
  - by apply Hother.
  - intros p q Hp Hq. apply Hother. rewrite Hp. intros Heq.
    by apply token_key_inj in Heq.
  - intros p Hp.
    match goal with |- ∃ s'', initialize p ?s1 = _ ∧ _ =>
      destruct (initialize_run p s1) as (b & Hi & Hb) end.
    destruct b.
    + destruct Hb as [Hb _]. destruct (Hb eq_refl) as (t & Ht & _).
      simpl in Ht. rewrite Hp, lookup_delete_eq in Ht. discriminate.
    + eexists. split; [exact Hi | done].
Qed.

End Credential.

(** ** The token in the callback fragment *)

Section Fragment.

Context `{Host}.









End Fragment.

(** ** What a successful synchronisation leaves behind *)

Section SyncSuccess.

Context `{Host}.

(** After a successful [syncData] the returned document is an object, it is
    the merge of the parsed local document with the downloaded one, and
    [localStorage] holds its serialisation under the planner's data key
    and the serialisation of the merged settings under the settings key:
    what was uploaded is what is stored locally. *)
Theorem syncData_success_persists s d s' :
  syncData s = (Ok (Success d), s') →
  (∃ m, d = JObj m) ∧
  localStorage s' !! data_key = Some (JSON_stringify d) ∧
  ∃ cloudData s1 cloudSettings s2 localData localSettings,
    downloadData false s = (Ok cloudData, s1) ∧
    downloadData true s1 = (Ok cloudSettings, s2) ∧
    parse (or_empty_object (localStorage s !! data_key)) = Ok localData ∧
    parse (or_empty_object (localStorage s !! settings_key)) = Ok localSettings ∧
    d = merge localData cloudData ∧
    localStorage s' !! settings_key =
      Some (JSON_stringify (merge localSettings cloudSettings)).
Proof.
  unfold syncData, try_catch.
  destruct (syncData_try s) as [[r|e] s0] eqn:Et; [| discriminate].
  intros [= -> ->]. revert Et. unfold syncData_try.
  unfold bind at 1.
  destruct (downloadData false s) as [[cloudData|] s1] eqn:Hd1; [| done].
  unfold bind at 1.
  destruct (downloadData true s1) as [[cloudSettings|] s2] eqn:Hd2; [| done].
  destruct (obeys_downloadData _ _ _ _ Hd1) as [(_ & _ & Hl1 & _) _].
  destruct (obeys_downloadData _ _ _ _ Hd2) as [(_ & _ & Hl2 & _) _].
  unfold bind at 1, getItem at 1, bind at 1, get, ret. simpl.
  unfold bind at 1, lift at 1.
  destruct (parse (or_empty_object (localStorage s2 !! data_key)))
    as [localData|] eqn:Hp1; [| done].
  unfold bind at 1, getItem at 1, bind at 1, ret. simpl.
  unfold bind at 1, lift at 1.
  destruct (parse (or_empty_object (localStorage s2 !! settings_key)))
    as [localSettings|] eqn:Hp2; [| done].
  unfold bind at 1, setItem at 1.
  destruct (storage_full (localStorage s2) data_key _); [done |].
  unfold bind at 1, setItem at 1. simpl.
  destruct (storage_full _ settings_key _); [done |].
  unfold bind at 1.
  match goal with |- context [uploadData ?x false ?st] =>
    destruct (uploadData x false st) as [[u1|] s3] eqn:Hu1; [| done] end.
  unfold bind at 1.
  destruct (uploadData _ true s3) as [[u2|] s4] eqn:Hu2; [| done].
  intros [= <- <-].
  destruct (obeys_uploadData _ _ _ _ _ Hu1) as [(_ & _ & Hl3 & _) _].
  destruct (obeys_uploadData _ _ _ _ _ Hu2) as [(_ & _ & Hl4 & _) _].
  split; [by eexists |]. split.
  - rewrite Hl4, Hl3. simpl. rewrite lookup_insert_ne; [| done].
    apply lookup_insert_eq.
  - exists cloudData, s1, cloudSettings, s2, localData, localSettings.
    rewrite <- Hl1, <- Hl2. repeat split; try done.
    rewrite Hl4, Hl3. simpl. apply lookup_insert_eq.
Qed.

End SyncSuccess.

(** ** Folder resolution and file lookup *)

Section Resolution.

Context `{Host}.

Lemma fetch_authorized_answer m t b s r :
  respond (log s) (Request m t (accessToken s) b) = Answer r →
  fetch_authorized m t b s =
    (Ok r, record_request (Request m t (accessToken s) b) s).
Proof. intros Hr. unfold fetch_authorized, fetch, bind, get. by rewrite Hr. Qed.

Lemma find_file_first name items :
  Forall (fun item => item ≠ JNull) items →
  find_file name items = Ok (List.find (is_file_named name) items).
Proof.
  induction 1 as [| item items Hitem _ IH]; [done |]. simpl.
  destruct item; try done; unfold is_file_named; simpl; try done.
  by destruct (_ && _).
Qed.

(** [findBoxFile] returns the [id] of the first entry of the listing that
    is a file with exactly the requested name; folders of that name and
    files of other names are passed over, and when there is no such entry
    the result is [null]. *)
Theorem findBoxFile_first_match name folder s r data items :
  respond (log s) (box_listing folder s) = Answer r →
  ok r = true →
  json_body r = Some data →
  prop data "entries" = Some (JArr items) →
  Forall (fun item => item ≠ JNull) items →
  findBoxFile name folder s =
    (Ok match List.find (is_file_named name) items with
        | Some item => prop item "id"
        | None => js_null
        end,
     record_request (box_listing folder s) s).
Proof.
  intros Hr Hok Hb He Hitems.
  assert (Hdata : get_prop (Some data) "entries" = Ok (Some (JArr items))).
  { destruct data; try done. by simpl in *; rewrite He. }
  unfold findBoxFile. unfold bind at 1.
  rewrite (fetch_authorized_answer _ _ _ _ _ Hr), Hok. cbn [negb].
  unfold bind at 1, json_of. rewrite Hb. unfold ret at 1.
  unfold bind at 1, lift at 1. rewrite Hdata.
  unfold bind at 1, lift at 1. cbn [array_find].
  rewrite (find_file_first _ _ Hitems).
  destruct (List.find (is_file_named name) items) as [item|] eqn:Ef; [| done].
  apply find_some in Ef as [_ Ef]. unfold is_file_named in Ef.
  by destruct item.
Qed.

Lemma ensure_tail {A} (k : response → M A) (b : payload) (t : endpoint) s x s' :
  (createResponse <- fetch_authorized POST t b ;; k createResponse) s = (x, s') →
  (∀ a s0 y s1, k a s0 = (y, s1) → log s1 = log s0) →
  log s' = log s ++ [Request POST t (accessToken s) b].
Proof.
  intros Hrun Hk. unfold fetch_authorized, bind, get in Hrun. simpl in Hrun.
  destruct (fetch _ s) as [[a|e] s0] eqn:Ef.
  - rewrite (Hk _ _ _ _ Hrun). by apply fetch_log in Ef.
  - injection Hrun as <- <-. by apply fetch_log in Ef.
Qed.

(** A folder search that the provider does not answer with an ok status is
    read as "no such folder": with an empty cache, [ensureBoxFolder] and
    [ensureGDriveFolder] go on to request the creation of a new folder,
    whatever the failure was. *)
Theorem failed_folder_search_creates s r :
  js_truthy (folderId s) = false →
  ok r = false →
  (respond (log s) (box_folder_search s) = Answer r →
   ∀ x s', ensureBoxFolder s = (x, s') →
     ∃ create, log s' = log s ++ [box_folder_search s; create] ∧
               meth create = POST ∧ target create = BoxFolders) ∧
  (respond (log s) (gdrive_folder_search s) = Answer r →
   ∀ x s', ensureGDriveFolder s = (x, s') →
     ∃ create, log s' = log s ++ [gdrive_folder_search s; create] ∧
               meth create = POST ∧ target create = GDriveFiles).
Proof.
  intros Hc Hok. split; intros Hr x s'.
  - unfold ensureBoxFolder. unfold bind at 1, get. rewrite Hc.
    unfold bind at 1. fold (box_folder_search s) in *.
    rewrite (fetch_authorized_answer _ _ _ _ _ Hr), Hok.
    unfold bind at 1, ret at 1. intros Hrun. apply ensure_tail in Hrun.
    + eexists. rewrite Hrun. simpl. by rewrite <- (assoc_L (++)).
    + intros a s0 y s1. unfold json_of, bind, lift, modify, throw, ret.
      by repeat case_match; intros; simplify_eq/=.
  - unfold ensureGDriveFolder. unfold bind at 1, get. rewrite Hc.
    unfold bind at 1. fold (gdrive_folder_search s) in *.
    rewrite (fetch_authorized_answer _ _ _ _ _ Hr), Hok.
    unfold bind at 1, ret at 1. intros Hrun. apply ensure_tail in Hrun.
    + eexists. rewrite Hrun. simpl. by rewrite <- (assoc_L (++)).
    + intros a s0 y s1. unfold json_of, bind, lift, modify, throw, ret.
      by repeat case_match; intros; simplify_eq/=.
Qed.

(** When the folder search lists at least one entry, folder resolution
    takes the [id] of the first one, caches it, and issues no creation
    request: the only request is the search. *)
Theorem found_folder_is_reused s r data first rest :
  js_truthy (folderId s) = false →
  ok r = true →
  json_body r = Some data →
  first ≠ JNull →
  (respond (log s) (box_folder_search s) = Answer r →
   prop data "entries" = Some (JArr (first :: rest)) →
   ensureBoxFolder s =
     (Ok (prop first "id"),
      set_folderId (prop first "id") (record_request (box_folder_search s) s))) ∧
  (respond (log s) (gdrive_folder_search s) = Answer r →
   prop data "files" = Some (JArr (first :: rest)) →
   ensureGDriveFolder s =
     (Ok (prop first "id"),
      set_folderId (prop first "id") (record_request (gdrive_folder_search s) s))).
Proof.
  intros Hc Hok Hb Hfirst. split; intros Hr He.
  - assert (Hdata : get_prop (Some data) "entries" = Ok (Some (JArr (first :: rest)))).
    { destruct data; try done. by simpl in *; rewrite He. }
    unfold ensureBoxFolder. unfold bind at 1, get. rewrite Hc.
    unfold bind at 1. fold (box_folder_search s) in *.
    rewrite (fetch_authorized_answer _ _ _ _ _ Hr), Hok.
    unfold bind at 1, bind at 1, json_of. rewrite Hb. unfold ret at 1.
    unfold bind at 1, lift at 1. rewrite Hdata.
    unfold bind at 1, lift at 1. cbn [non_empty truthy length_gt_zero].
    unfold bind at 1, lift at 1. cbn [index0_opt index0 head].
    by destruct first.
  - assert (Hdata : get_prop (Some data) "files" = Ok (Some (JArr (first :: rest)))).
    { destruct data; try done. by simpl in *; rewrite He. }
    unfold ensureGDriveFolder. unfold bind at 1, get. rewrite Hc.
    unfold bind at 1. fold (gdrive_folder_search s) in *.
    rewrite (fetch_authorized_answer _ _ _ _ _ Hr), Hok.
    unfold bind at 1, bind at 1, json_of. rewrite Hb. unfold ret at 1.
    unfold bind at 1, lift at 1. rewrite Hdata.
    unfold bind at 1, lift at 1. cbn [non_empty truthy length_gt_zero].
    unfold bind at 1, lift at 1. cbn [index0_opt index0 head].
    by destruct first.
Qed.

End Resolution.

(** ** Absent files and the reference provider *)

Section Absent.

Context `{Host}.

(** A file that does not exist remotely is downloaded as [null], not as an
    error, by all three adapters: for Box and Google Drive when the lookup
    finds no file (no content is requested then), for OneDrive when the
    content request is answered 404. *)
Theorem absent_file_downloads_null name s :
  (∀ folder s1 file s2,
      ensureBoxFolder s = (Ok folder, s1) →
      findBoxFile name folder s1 = (Ok file, s2) →
      js_truthy file = false →
      downloadFromBox name s = (Ok JNull, s2)) ∧
  (∀ folder s1 file s2,
      ensureGDriveFolder s = (Ok folder, s1) →
      findGDriveFile name folder s1 = (Ok file, s2) →
      js_truthy file = false →
      downloadFromGDrive name s = (Ok JNull, s2)) ∧
  (∀ r,
      respond (log s)
        (Request GET (OneDriveContent folderName name) (accessToken s) NoBody)
        = Answer r →
      status r = 404 →
      downloadFromOneDrive name s =
        (Ok JNull,
         record_request
           (Request GET (OneDriveContent folderName name) (accessToken s) NoBody)
           s)).
Proof.
  split; [| split].
  - intros. by eapply downloadFromBox_absent.
  - intros. by eapply downloadFromGDrive_absent.
  - intros r Hr Hs. unfold downloadFromOneDrive. unfold bind at 1.
    by rewrite (fetch_authorized_answer _ _ _ _ _ Hr), Hs.
Qed.

End Absent.

Section RoundTrip.

Variable base : Host.

#[local] Abbreviation host := (with_reference_provider base).

(** Against the reference provider, starting with nothing stored remotely:
    what [uploadData] uploads is what [downloadData] then downloads. A
    second upload of the same logical file overwrites the first (one create
    request, then one update request for Box and Google Drive), and the
    download returns the content of the second. *)
Theorem upload_then_download (p : string) (token : option string)
    (storage : gmap string string) (l : location)
    (first second parsed : json) (isSettings : bool) :
  p = "box" ∨ p = "onedrive" ∨ p = "gdrive" →
  @JSON_parse base (@JSON_stringify base second) = Some parsed →
  let up1 := @uploadData host first isSettings (first_use p token storage l) in
  let up2 := @uploadData host second isSettings up1.2 in
  let down := @downloadData host isSettings up2.2 in
  (∃ r, up1.1 = Ok r) ∧
  (∃ r, up2.1 = Ok r) ∧
  down.1 = Ok parsed ∧
  (p ≠ "onedrive" →
   List.length (List.filter is_file_creation (log up2.2)) = 1%nat ∧
   List.length (List.filter is_file_update (log up2.2)) = 1%nat).
Proof.
  intros Hp Hparse up1 up2 down. subst down up2 up1.
  vm_compute in Hparse.
  destruct Hp as [-> | [-> | ->]], isSettings.
  all: vm_compute; rewrite Hparse; repeat split; try by eexists.
  all: match goal with Hne : _ = _ → False |- _ => by destruct Hne end.
Qed.

End RoundTrip.

(** ** Instances of the properties above *)

Lemma syncData_footprint_witness :
  let s := first_use "onedrive" (Some "token") desk_storage desk_page in
  let run := @syncData read_only_host s in
  provider run.2 = provider s ∧
  accessToken run.2 = accessToken s ∧
  window_location run.2 = window_location s ∧
  (∀ k, k ≠ data_key → k ≠ settings_key →
        localStorage run.2 !! k = localStorage s !! k) ∧
  ∃ issued, log run.2 = log s ++ issued.
Proof.
  intros s run. apply (@syncData_footprint read_only_host s run.1 run.2).
  by vm_compute.
Defined.

Lemma unconfigured_provider_witness :
  (∀ data isSettings,
      @uploadData offline_host data isSettings (constructor ∅ desk_page) =
        (Throw (Error "No provider configured"), constructor ∅ desk_page)) ∧
  (∀ isSettings,
      @downloadData offline_host isSettings (constructor ∅ desk_page) =
        (Throw (Error "No provider configured"), constructor ∅ desk_page)) ∧
  @syncData offline_host (constructor ∅ desk_page) =
    (Ok (Failure "No provider configured"), constructor ∅ desk_page).
Proof.
  apply (@unconfigured_provider offline_host (constructor ∅ desk_page));
    by vm_compute.
Defined.

Lemma initialize_keeps_session_witness :
  let s1 := (@ensureBoxFolder reference_host (connected "box" "token")).2 in
  ∃ b s2,
    initialize "gdrive" s1 = (Ok b, s2) ∧
    provider s2 = Some "gdrive" ∧
    @ensureGDriveFolder reference_host s2 = (Ok (Some (JStr "1")), s2) ∧
    (localStorage s1 !! token_key (Some "gdrive") = None →
     b = false ∧ accessToken s2 = accessToken s1).
Proof.
  intros s1.
  apply (@initialize_keeps_session reference_host "gdrive"
           (connected "box" "token") (Some (JStr "1")) s1);
    reflexivity.
Defined.



Lemma syncData_success_persists_witness :
  let s := first_use "box" (Some "token") desk_storage desk_page in
  let s' := (@syncData desk_host s).2 in
  (∃ m, local_document = JObj m) ∧
  localStorage s' !! data_key = Some (@JSON_stringify desk_host local_document) ∧
  ∃ cloudData s1 cloudSettings s2 localData localSettings,
    @downloadData desk_host false s = (Ok cloudData, s1) ∧
    @downloadData desk_host true s1 = (Ok cloudSettings, s2) ∧
    @parse desk_host (or_empty_object (localStorage s !! data_key)) = Ok localData ∧
    @parse desk_host (or_empty_object (localStorage s !! settings_key))
      = Ok localSettings ∧
    local_document = merge localData cloudData ∧
    localStorage s' !! settings_key =
      Some (@JSON_stringify desk_host (merge localSettings cloudSettings)).
Proof.
  intros s s'. apply (@syncData_success_persists desk_host s local_document s').
  by vm_compute.
Defined.

Lemma findBoxFile_first_match_witness :
  let s := set_folderId (Some (JStr "1")) (connected "box" "token") in
  @findBoxFile crowded_host fileName (Some (JStr "1")) s =
    (Ok (Some (JStr "7")), record_request (box_listing (Some (JStr "1")) s) s).
Proof.
  intros s. etransitivity.
  apply (@findBoxFile_first_match crowded_host fileName (Some (JStr "1")) s
           (Response 200 (Some crowded_listing)) crowded_listing
           [ JObj {[ "type" := JStr "folder"; "id" := JStr "5"; "name" := JStr fileName ]};
             JObj {[ "type" := JStr "file"; "id" := JStr "6";
                     "name" := JStr settingsFileName ]};
             JObj {[ "type" := JStr "file"; "id" := JStr "7"; "name" := JStr fileName ]} ]).
  - reflexivity.
  - reflexivity.
  - reflexivity.
  - reflexivity.
  - by repeat constructor.
  - vm_compute. reflexivity.
Defined.

Lemma failed_folder_search_creates_witness :
  let s := connected "box" "token" in
  let run := @ensureBoxFolder offline_host s in
  ∃ create, log run.2 = log s ++ [box_folder_search s; create] ∧
            meth create = POST ∧ target create = BoxFolders.
Proof.
  intros s run.
  destruct (@failed_folder_search_creates offline_host s (Response 500 None)
              eq_refl eq_refl) as [Hbox _].
  apply (Hbox eq_refl run.1 run.2). by vm_compute.
Defined.

Lemma found_folder_is_reused_witness :
  let s := connected "box" "token" in
  @ensureBoxFolder vanishing_host s =
    (Ok (Some (JStr "1")),
     set_folderId (Some (JStr "1")) (record_request (box_folder_search s) s)).
Proof.
  intros s.
  destruct (@found_folder_is_reused vanishing_host s
              (Response 200 (Some (JObj {[ "entries" :=
                 JArr [folder_entry (RemoteFolder "1" folderName)] ]})))
              (JObj {[ "entries" := JArr [folder_entry (RemoteFolder "1" folderName)] ]})
              (folder_entry (RemoteFolder "1" folderName)) []
              eq_refl eq_refl eq_refl) as [Hbox _]; [done |].
  apply Hbox; reflexivity.
Defined.

Lemma upload_then_download_witness :
  let up1 := @uploadData (with_reference_provider desk_codec) local_document false
               (first_use "box" (Some "token") ∅ desk_page) in
  let up2 := @uploadData (with_reference_provider desk_codec) merged_document false
               up1.2 in
  let down := @downloadData (with_reference_provider desk_codec) false up2.2 in
  (∃ r, up1.1 = Ok r) ∧
  (∃ r, up2.1 = Ok r) ∧
  down.1 = Ok merged_document ∧
  ("box" ≠ "onedrive" →
   List.length (List.filter is_file_creation (log up2.2)) = 1%nat ∧
   List.length (List.filter is_file_update (log up2.2)) = 1%nat).
Proof.
  apply (upload_then_download desk_codec "box" (Some "token") ∅ desk_page
           local_document merged_document merged_document false).
  - by left.
  - by vm_compute.
Defined.

(** * The calendar modules *)

(** ** Reading back a printed instant *)

Section ParseInt.







End ParseInt.

(** ** [GoogleCalendar]: the lifetime of a token *)

Section GoogleToken.

Context `{Host} `{CalendarHost}.

Lemma google_disconnect_run g :
  ∃ g', Google.disconnect g = (Ok tt, g') ∧
        google_signed_out g' ∧
        google_log g' = google_log g ∧
        provider (google_page g') = provider (google_page g) ∧
        window_location (google_page g') = window_location (google_page g) ∧
        ∀ k, k ≠ Google.token_key → k ≠ Google.expiry_key →
             k ≠ Google.selected_key →
             localStorage (google_page g') !! k = localStorage (google_page g) !! k.
Proof.
  eexists. split; [reflexivity |]. simpl.
  split; [| split; [done | split; [done | split; [done |]]]].
  - repeat split; simpl; try done.
    + rewrite lookup_delete_ne, lookup_delete_ne by done. apply lookup_delete_eq.
    + rewrite lookup_delete_ne by done. apply lookup_delete_eq.
    + apply lookup_delete_eq.
  - intros k K1 K2 K3. by rewrite !lookup_delete_ne.
Qed.





End GoogleToken.

(** ** [GoogleCalendar.fetchCalendarList] *)

Section GoogleList.

Context `{Host} `{CalendarHost}.

Lemma map_result_Forall {A B} (f : A → result B) (P : B → Prop) l out :
  (∀ x y, f x = Ok y → P y) →
  map_result f l = Ok out → Forall P out.
Proof.
  intros Hf. revert out. induction l as [| x l IH]; intros out; simpl.
  - intros [= <-]. constructor.
  - destruct (f x) as [y |] eqn:Hx; [| done]. simpl.
    destruct (map_result f l) as [ys |]; [| done]. simpl.
    intros [= <-]. constructor; eauto.
Qed.

Lemma js_or_truthy a b :
  js_truthy (js_or a b) = true ∨ js_or a b = b.
Proof. unfold js_or. destruct (js_truthy a) eqn:Ha; auto. Qed.

Lemma describe_complete cal entry :
  Google.describe cal = Ok entry → entry_complete entry.
Proof.
  unfold Google.describe. destruct (get_prop (Some cal) "id") as [id |]; [| done].
  simpl. intros [= <-]. unfold entry_complete. simpl.
  split; [| split; [| split]]; try apply js_or_truthy.
  unfold js_or. by destruct (js_truthy (prop cal "backgroundColor")) eqn:Hc.
Qed.

(** How [fetchCalendarList] fails. Without a token it raises
    'Not authenticated' and asks nothing. With a token it sends one
    request carrying it; a rejected request raises the network error, an
    answer 401 signs out (token, expiry, selection and calendar list are
    dropped) and raises 'Authentication expired. Please sign in again.',
    any other answer outside 200-299 raises 'Failed to fetch calendar
    list' and keeps the session as it was. *)
Theorem google_fetchCalendarList_failures g :
  let request := google_list_request g in
  (truthy_text (accessToken (google_page g)) = false →
   Google.fetchCalendarList g = (Throw (Error "Not authenticated"), g)) ∧
  (truthy_text (accessToken (google_page g)) = true →
   calendar_respond (google_log g) request = Rejected →
   Google.fetchCalendarList g
   = (Throw NetworkError, google_requested request g)) ∧
  (∀ r, truthy_text (accessToken (google_page g)) = true →
        calendar_respond (google_log g) request = Answer r →
        status r = 401 →
        ∃ g', Google.fetchCalendarList g
              = (Throw (Error "Authentication expired. Please sign in again."), g') ∧
              google_signed_out g' ∧
              google_log g' = google_log g ++ [request]) ∧
  (∀ r, truthy_text (accessToken (google_page g)) = true →
        calendar_respond (google_log g) request = Answer r →
        ok r = false → status r ≠ 401 →
        Google.fetchCalendarList g
        = (Throw (Error "Failed to fetch calendar list"),
           google_requested request g)).
Proof.
  destruct g as [p l lg]. simpl.
  unfold Google.fetchCalendarList, sbind, sget, Google.fetch, google_list_request,
    google_requested. simpl.
  split; [| split; [| split]].
  - by intros ->.
  - intros Ht Hr. rewrite Ht. simpl. by rewrite Hr.
  - intros r Ht Hr Hs. rewrite Ht. simpl. rewrite Hr.
    unfold ok. rewrite Hs.
    change ((200 <=? 401) && (401 <=? 299)) with false.
    change (401 =? 401) with true. cbv iota. cbn [negb].
    destruct (google_disconnect_run (GoogleCalendarState p l (lg ++
      [CalendarRequest GoogleCalendarList (accessToken p) None])))
      as (g' & Hd & Hout & Hlog & _).
    exists g'. split; [| by split].
    apply (f_equal snd) in Hd. simpl in Hd. by rewrite <- Hd.
  - intros r Ht Hr Hok Hs. rewrite Ht. simpl. rewrite Hr, Hok. simpl.
    by destruct (Z.eqb_spec (status r) 401).
Qed.

(** Every calendar list that [fetchCalendarList] returns is the one it
    keeps in [calendarList], it was obtained by one request, the token is
    untouched, and each entry is complete: it has a colour, its summary is
    set or is its id, its description is set or is the empty string, its
    [primary] is set or is [false]. *)
Theorem google_calendar_list_complete g calendars g' :
  Google.fetchCalendarList g = (Ok calendars, g') →
  g' = GoogleCalendarState (google_page g) calendars
                           (google_log g ++ [google_list_request g]) ∧
  Forall entry_complete calendars.
Proof.
  destruct g as [p l lg].
  unfold Google.fetchCalendarList, sbind, sget, Google.fetch, google_list_request.
  cbn -[get_prop map_result].
  destruct (truthy_text (accessToken p)); [| done]. cbn -[get_prop map_result].
  destruct (calendar_respond _ _) as [r |]; [| done].
  destruct (ok r); cbn -[get_prop map_result].
  2: { by destruct (status r =? 401). }
  destruct (json_body r) as [data |]; [| done]. cbn -[get_prop map_result].
  unfold slift. destruct (get_prop (Some data) "items") as [items |]; [| done].
  destruct (js_truthy items).
  - destruct items as [[| ? | ? | ? | cals | ?] |]; try done.
    destruct (map_result Google.describe cals) as [out |] eqn:Hmap; [| done].
    intros [= <- <-]. split; [done |].
    eapply map_result_Forall; [| exact Hmap]. apply describe_complete.
  - intros [= <- <-]. split; [done | constructor].
Qed.

(** The saved selection. What [saveSelectedCalendarIds] stored is what
    [getSelectedCalendarIds] returns, for a selection that [JSON.parse]
    reads back from a non-empty text; a saved text that does not parse
    reads as [null] instead of raising; and after [disconnect] the
    selection reads as [null]. *)
Theorem google_selection g :
  (∀ ids,
     JSON_stringify ids ≠ "" →
     parse (JSON_stringify ids) = Ok ids →
     storage_full (localStorage (google_page g)) Google.selected_key
                  (JSON_stringify ids) = false →
     ∃ g1, Google.saveSelectedCalendarIds ids g = (Ok tt, g1) ∧
           Google.getSelectedCalendarIds g1 = (Ok ids, g1)) ∧
  (∀ text,
     localStorage (google_page g) !! Google.selected_key = Some text →
     parse text = Throw SyntaxError →
     Google.getSelectedCalendarIds g = (Ok JNull, g)) ∧
  (∃ g1, Google.disconnect g = (Ok tt, g1) ∧
         Google.getSelectedCalendarIds g1 = (Ok JNull, g1)).
Proof.
  destruct g as [p l lg]. simpl. split; [| split].
  - intros ids Hne Hparse Hfull. eexists. split.
    + unfold Google.saveSelectedCalendarIds, Google.on_page, setItem, bind, get.
      simpl. rewrite Hfull. reflexivity.
    + unfold Google.getSelectedCalendarIds, sbind, Google.on_page, getItem, bind,
        get, ret. simpl. rewrite lookup_insert_eq. simpl.
      apply String.eqb_neq in Hne. rewrite Hne. simpl.
      by rewrite Hparse.
  - intros text Hsaved Hparse.
    unfold Google.getSelectedCalendarIds, sbind, Google.on_page, getItem, bind,
      get, ret. simpl. rewrite Hsaved. simpl.
    destruct (negb (text =? "")%string); [| done].
    by rewrite Hparse.
  - eexists. split; [reflexivity |].
    unfold Google.getSelectedCalendarIds, sbind, Google.on_page, getItem, bind,
      get, ret. simpl. by rewrite lookup_delete_eq.
Qed.

End GoogleList.

(** ** [OutlookCalendar] *)

Section Outlook.

Context `{Host} `{CalendarHost}.

Lemma convert_ok event :
  has_times event = true →
  ∃ c, OutlookCalendar.convert event = Ok c ∧ converted event c.
Proof.
  unfold has_times, OutlookCalendar.convert, converted.
  destruct event as [| ? | ? | ? | ? | m]; try done; simpl.
  destruct (m !! "start") as [[| ? | ? | ? | ? | ?] |] eqn:Hs; try done;
    destruct (m !! "end") as [[| ? | ? | ? | ? | ?] |] eqn:He; try done;
    intros _; simpl; eexists; (split; [reflexivity |]); simpl;
    (repeat split);
    unfold OutlookCalendar.getEventColor, outlook_palette;
    repeat case_match; set_solver.
Qed.

Lemma convert_throws event :
  has_times event = false →
  OutlookCalendar.convert event = Throw TypeError.
Proof.
  unfold has_times, OutlookCalendar.convert.
  destruct event as [| ? | ? | ? | ? | m]; try done; simpl.
  destruct (m !! "start") as [[| ? | ? | ? | ? | ?] |] eqn:Hs; try done;
    destruct (m !! "end") as [[| ? | ? | ? | ? | ?] |] eqn:He; done.
Qed.

Lemma map_convert events :
  if forallb has_times events then
    ∃ out, map_result OutlookCalendar.convert events = Ok out ∧
           Forall2 converted events out
  else map_result OutlookCalendar.convert events = Throw TypeError.
Proof.
  induction events as [| event events IH]; simpl.
  - exists []. split; [done | constructor].
  - destruct (has_times event) eqn:Ht; simpl.
    + destruct (convert_ok event Ht) as (c & -> & Hc). simpl.
      destruct (forallb has_times events).
      * destruct IH as (out & -> & Hout). simpl.
        exists (c :: out). split; [done | by constructor].
      * by rewrite IH.
    + by rewrite (convert_throws event Ht).
Qed.

(** How [fetchEvents] fails. Without a token it raises 'Not authenticated'
    and asks nothing. With a token it sends one request carrying it; a
    rejected request raises the network error, an answer 401 removes the
    token from the instance and from [localStorage] (every other key is
    kept) and raises 'Authentication expired. Please sign in again.', any
    other answer outside 200-299 raises 'Failed to fetch calendar events'
    and keeps the session as it was. *)
Theorem outlook_fetchEvents_failures o startISO endISO :
  let request := outlook_view_request startISO endISO o in
  (truthy_text (accessToken (outlook_page o)) = false →
   OutlookCalendar.fetchEvents startISO endISO o
   = (Throw (Error "Not authenticated"), o)) ∧
  (truthy_text (accessToken (outlook_page o)) = true →
   calendar_respond (outlook_log o) request = Rejected →
   OutlookCalendar.fetchEvents startISO endISO o
   = (Throw NetworkError, outlook_requested request o)) ∧
  (∀ r, truthy_text (accessToken (outlook_page o)) = true →
        calendar_respond (outlook_log o) request = Answer r →
        status r = 401 →
        ∃ o', OutlookCalendar.fetchEvents startISO endISO o
              = (Throw (Error "Authentication expired. Please sign in again."), o') ∧
              accessToken (outlook_page o') = None ∧
              localStorage (outlook_page o')
              = delete OutlookCalendar.token_key (localStorage (outlook_page o)) ∧
              outlook_log o' = outlook_log o ++ [request]) ∧
  (∀ r, truthy_text (accessToken (outlook_page o)) = true →
        calendar_respond (outlook_log o) request = Answer r →
        ok r = false → status r ≠ 401 →
        OutlookCalendar.fetchEvents startISO endISO o
        = (Throw (Error "Failed to fetch calendar events"),
           outlook_requested request o)).
Proof.
  destruct o as [p lg]. simpl.
  unfold OutlookCalendar.fetchEvents, sbind, sget, OutlookCalendar.fetch,
    outlook_view_request, outlook_requested. simpl.
  split; [| split; [| split]].
  - by intros ->.
  - intros Ht Hr. rewrite Ht. simpl. by rewrite Hr.
  - intros r Ht Hr Hs. rewrite Ht. simpl. rewrite Hr.
    unfold ok. rewrite Hs. eexists. split; [reflexivity |]. done.
  - intros r Ht Hr Hok Hs. rewrite Ht. simpl. rewrite Hr, Hok. simpl.
    by destruct (Z.eqb_spec (status r) 401).
Qed.

(** The conversion of the events is all or nothing. When the service
    answers with a list of events, [fetchEvents] returns one converted
    entry per event, in order, with the event's subject, its start and end
    instants and a colour of the palette, provided every event carries a
    [start] and an [end]; a single event without one of them makes the
    whole call raise a [TypeError], and no event is returned. *)
Theorem outlook_events_all_or_nothing o startISO endISO r data events :
  let request := outlook_view_request startISO endISO o in
  truthy_text (accessToken (outlook_page o)) = true →
  calendar_respond (outlook_log o) request = Answer r →
  ok r = true →
  json_body r = Some data →
  prop data "value" = Some (JArr events) →
  if forallb has_times events then
    ∃ out, OutlookCalendar.fetchEvents startISO endISO o
           = (Ok out, outlook_requested request o) ∧
           Forall2 converted events out
  else OutlookCalendar.fetchEvents startISO endISO o
       = (Throw TypeError, outlook_requested request o).
Proof.
  destruct o as [p lg]. intros request Ht Hr Hok Hbody Hvalue.
  subst request.
  unfold OutlookCalendar.fetchEvents, sbind, sget, OutlookCalendar.fetch,
    outlook_view_request, outlook_requested in *.
  cbn -[get_prop map_result] in *. rewrite Ht. cbn -[get_prop map_result].
  rewrite Hr, Hok, Hbody. cbn -[get_prop map_result].
  assert (Hget : get_prop (Some data) "value" = Ok (Some (JArr events))).
  { destruct data; try done. simpl. by f_equal. }
  unfold slift. rewrite Hget.
  pose proof (map_convert events) as Hmap.
  destruct (forallb has_times events).
  - destruct Hmap as (out & -> & Hout). by exists out.
  - by rewrite Hmap.
Qed.



End Outlook.

(** ** The callback handlers side by side *)

Section Handlers.

Context `{Host}.





End Handlers.

(** ** Instances of the calendar properties *)



Lemma google_calendar_list_complete_witness :
  let g := google_on (calendar_page Google.token_key "XYZ") in
  let run := @Google.fetchCalendarList
               (constant_calendar (Response 200 (Some sample_calendars))) g in
  let calendars := match run.1 with Ok l => l | Throw _ => [] end in
  run.1 = Ok calendars ∧ List.length calendars = 2%nat ∧
  run.2 = GoogleCalendarState (google_page g) calendars
            (google_log g ++ [google_list_request g]) ∧
  Forall entry_complete calendars.
Proof.
  intros g run calendars.
  split; [by vm_compute |]. split; [by vm_compute |].
  apply (@google_calendar_list_complete
           (constant_calendar (Response 200 (Some sample_calendars)))
           g calendars run.2).
  by vm_compute.
Defined.

Lemma outlook_events_all_or_nothing_witness :
  let o := outlook_on (calendar_page OutlookCalendar.token_key "XYZ") in
  let first := "2026-01-01T00:00:00.000Z" in
  let last := "2026-02-01T00:00:00.000Z" in
  @OutlookCalendar.fetchEvents
     (constant_calendar (Response 200 (Some sample_events))) first last o
  = (Throw TypeError, outlook_requested (outlook_view_request first last o) o).
Proof.
  intros o first last.
  exact (@outlook_events_all_or_nothing
           (constant_calendar (Response 200 (Some sample_events)))
           o first last (Response 200 (Some sample_events)) sample_events
           [sample_event; broken_event]
           eq_refl eq_refl eq_refl eq_refl eq_refl).
Defined.



(** * The service worker *)

Section CacheStorage.

Lemma filter_twice {A} (f g : A → bool) l :
  List.filter f (List.filter g l) = List.filter (fun x => g x && f x) l.
Proof.
  induction l as [| x l IH]; simpl; [done |].
  destruct (g x); simpl; [destruct (f x) |]; by rewrite IH.
Qed.

Lemma map_fst_update_cache name f cs :
  map fst (update_cache name f cs) = map fst cs.
Proof.
  unfold update_cache. induction cs as [| [n c] cs IH]; simpl; [done |].
  rewrite IH. by destruct (String.eqb n name).
Qed.

Lemma has_cache_update_cache name name' f cs :
  has_cache name (update_cache name' f cs) = has_cache name cs.
Proof.
  unfold has_cache, update_cache. induction cs as [| [n c] cs IH]; simpl; [done |].
  rewrite IH. by destruct (String.eqb n name').
Qed.

Lemma has_cache_app name cs cs' :
  has_cache name (cs ++ cs') = has_cache name cs || has_cache name cs'.
Proof. apply existsb_app. Qed.

Lemma cache_named_update_other name name' f cs :
  name ≠ name' →
  cache_named name (update_cache name' f cs) = cache_named name cs.
Proof.
  intros Hne. unfold cache_named, update_cache.
  induction cs as [| [n c] cs IH]; simpl; [done |].
  destruct (String.eqb_spec n name') as [-> | Hn]; simpl.
  - apply String.eqb_neq in Hne. rewrite String.eqb_sym, Hne. exact IH.
  - destruct (String.eqb n name); [done | exact IH].
Qed.

Lemma cache_named_app_other name name' c cs :
  name ≠ name' →
  cache_named name (cs ++ [(name', c)]) = cache_named name cs.
Proof.
  intros Hne. unfold cache_named.
  induction cs as [| [n c0] cs IH]; simpl.
  - apply String.eqb_neq in Hne. by rewrite String.eqb_sym, Hne.
  - destruct (String.eqb n name); [done | exact IH].
Qed.

Lemma cache_named_filter_same name cs :
  cache_named name (List.filter (fun c => String.eqb c.1 name) cs)
  = cache_named name cs.
Proof.
  unfold cache_named. f_equal. induction cs as [| [n c] cs IH]; simpl; [done |].
  destruct (String.eqb n name) eqn:Hn; simpl; [by rewrite Hn | exact IH].
Qed.

Lemma cache_named_filter_other name name' cs :
  name ≠ name' →
  cache_named name (List.filter (fun c => String.eqb c.1 name') cs) = None.
Proof.
  intros Hne. unfold cache_named.
  induction cs as [| [n c] cs IH]; simpl; [done |].
  destruct (String.eqb_spec n name') as [-> | Hn]; simpl; [| exact IH].
  apply String.eqb_neq in Hne. by rewrite String.eqb_sym, Hne.
Qed.

Lemma caches_match_app_empty query name cs :
  caches_match query (cs ++ [(name, [])]) = caches_match query cs.
Proof.
  induction cs as [| [n c] cs IH]; simpl; [done |].
  by destruct (cache_match query c).
Qed.

Lemma cache_match_filter_other query url c :
  request_url query ≠ url →
  cache_match query
    (List.filter (fun old => negb (String.eqb (request_url old.1) url)) c)
  = cache_match query c.
Proof.
  intros Hne. unfold cache_match. f_equal.
  induction c as [| [k r] c IH]; simpl; [done |].
  destruct (String.eqb_spec (request_url k) url) as [Hk | Hk]; simpl.
  - unfold request_matches at 2. simpl.
    destruct (String.eqb_spec (request_url query) (request_url k)) as [Hq | Hq].
    + congruence.
    + by rewrite andb_false_r.
  - by rewrite IH.
Qed.

Lemma find_app_none {A} (f : A → bool) l l' :
  List.find f l = None → List.find f (l ++ l') = List.find f l'.
Proof.
  induction l as [| x l IH]; simpl; [done |]. by destruct (f x).
Qed.

Lemma find_app_some {A} (f : A → bool) l l' x :
  List.find f l = Some x → List.find f (l ++ l') = Some x.
Proof.
  induction l as [| y l IH]; simpl; [done |]. by destruct (f y).
Qed.

Lemma cache_match_put_same url r c :
  cache_match (request_of url) (cache_put (request_of url, r) c) = Some r.
Proof.
  unfold cache_match, cache_put. simpl.
  rewrite find_app_none.
  - simpl. unfold request_matches. simpl. by rewrite String.eqb_refl.
  - induction c as [| [k r0] c IH]; simpl; [done |].
    destruct (String.eqb_spec (request_url k) url) as [Hk | Hk]; simpl; [done |].
    unfold request_matches at 1. simpl.
    destruct (String.eqb_spec url (request_url k)); [congruence | done].
Qed.

Lemma cache_match_put_other query entry c :
  request_url query ≠ request_url entry.1 →
  cache_match query (cache_put entry c) = cache_match query c.
Proof.
  intros Hne. unfold cache_put.
  rewrite <- (cache_match_filter_other query (request_url entry.1) c Hne).
  unfold cache_match. f_equal.
  destruct (List.find _ (List.filter _ c)) as [x |] eqn:Hfind.
  - by apply find_app_some.
  - rewrite find_app_none by done. simpl. unfold request_matches.
    destruct (String.eqb_spec (request_url query) (request_url entry.1));
      [done | by rewrite andb_false_r].
Qed.

Lemma cache_match_puts_other query entries c :
  Forall (fun entry => request_url query ≠ request_url entry.1) entries →
  cache_match query (foldl (fun c entry => cache_put entry c) c entries)
  = cache_match query c.
Proof.
  intros Hall. revert c. induction Hall as [| entry entries Hne _ IH]; intros c.
  - done.
  - simpl. rewrite IH. by apply cache_match_put_other.
Qed.

Lemma zip_other_urls url urls (responses : list response) :
  url ∉ urls →
  Forall (fun entry => request_url (request_of url) ≠ request_url entry.1)
         (zip (map request_of urls) responses).
Proof.
  revert responses. induction urls as [| u urls IH]; intros responses Hu; simpl.
  - constructor.
  - destruct responses as [| r responses]; constructor.
    + simpl. intros ->. apply Hu. apply list_elem_of_here.
    + apply IH. intros Hin. apply Hu. by apply list_elem_of_further.
Qed.

(** After [addAll] stored the responses of distinct URLs, each URL finds
    its own. *)
Lemma cache_match_puts urls responses c i url r :
  NoDup urls →
  urls !! i = Some url →
  responses !! i = Some r →
  cache_match (request_of url)
    (foldl (fun c entry => cache_put entry c) c
           (zip (map request_of urls) responses)) = Some r.
Proof.
  intros Hnd. revert responses c i.
  induction Hnd as [| u urls Hu Hnd IH]; intros responses c i Hi Hr; [done |].
  destruct responses as [| r0 responses]; [by destruct i |].
  destruct i as [| i]; simpl in *.
  - injection Hi as ->. injection Hr as ->.
    rewrite cache_match_puts_other; [apply cache_match_put_same |].
    by apply zip_other_urls.
  - by apply (IH _ _ i).
Qed.

End CacheStorage.

Section Worker.

Context `{Network}.

Lemma send_each_run requests w :
  ∃ outcomes,
    ∀ w', worker_log w' = worker_log w →
          send_each requests w'
          = (Ok outcomes, Worker (caches w') (worker_log w' ++ requests)).
Proof.
  revert w. induction requests as [| request requests IH]; intros w.
  - exists []. intros [cs lg] _. simpl. unfold sret. by rewrite app_nil_r.
  - destruct (IH (Worker (caches w) (worker_log w ++ [request])))
      as (outcomes & Hsame).
    exists (network (worker_log w) request :: outcomes).
    intros w' Hl. simpl. unfold sbind at 1, send at 1. unfold sbind.
    rewrite (Hsame (Worker (caches w') (worker_log w' ++ [request])))
      by (simpl; by rewrite Hl).
    simpl. rewrite Hl. by rewrite <- app_assoc.
Qed.

(** The effect of [on_install], whatever the network does. *)
Lemma on_install_run w :
  let opened :=
    if has_cache ServiceWorker.CACHE_NAME (caches w) then caches w
    else caches w ++ [(ServiceWorker.CACHE_NAME, [])] in
  let requests := map request_of ServiceWorker.urlsToCache in
  ∃ outcomes,
    (∀ w', worker_log w' = worker_log w →
           send_each requests w'
           = (Ok outcomes, Worker (caches w') (worker_log w' ++ requests))) ∧
    ServiceWorker.on_install w
    = (Ok tt,
       Worker (match all_accepted outcomes with
               | Some responses =>
                   update_cache ServiceWorker.CACHE_NAME
                     (fun c => foldl (fun c entry => cache_put entry c) c
                                     (zip requests responses))
                     opened
               | None => opened
               end)
              (worker_log w ++ requests)).
Proof.
  intros opened requests.
  destruct (send_each_run requests w) as (outcomes & Hsame).
  exists outcomes. split; [exact Hsame |].
  unfold ServiceWorker.on_install, scatch, sbind at 1, caches_open, smodify.
  unfold cache_addAll, sbind at 1. fold requests.
  rewrite Hsame by (by destruct (has_cache _ _)).
  destruct (all_accepted outcomes) as [responses |].
  - unfold smodify. simpl. f_equal. f_equal; by destruct (has_cache _ _).
  - unfold sthrow, sret. simpl. f_equal. f_equal; by destruct (has_cache _ _).
Qed.

(** Installation never fails, whatever the network does: the promise given
    to [waitUntil] is fulfilled also when nothing could be cached. It
    sends exactly one request for each URL of [urlsToCache], in order,
    makes sure that the cache 'planner-v1' exists, and touches no other
    cache. *)
Theorem install_never_fails w :
  ∃ w', ServiceWorker.on_install w = (Ok tt, w') ∧
        worker_log w'
        = worker_log w ++ map request_of ServiceWorker.urlsToCache ∧
        has_cache ServiceWorker.CACHE_NAME (caches w') = true ∧
        map fst (caches w')
        = map fst (caches w) ++
          (if has_cache ServiceWorker.CACHE_NAME (caches w) then []
           else [ServiceWorker.CACHE_NAME]) ∧
        ∀ name, name ≠ ServiceWorker.CACHE_NAME →
                cache_named name (caches w') = cache_named name (caches w).
Proof.
  destruct (on_install_run w) as (outcomes & _ & Hrun).
  eexists. split; [exact Hrun |]. simpl. split; [done |].
  set (opened := if has_cache ServiceWorker.CACHE_NAME (caches w) then caches w
                 else caches w ++ [(ServiceWorker.CACHE_NAME, [])]).
  assert (Hhas : has_cache ServiceWorker.CACHE_NAME opened = true).
  { subst opened. destruct (has_cache _ (caches w)) eqn:Hc; [done |].
    rewrite has_cache_app, Hc. reflexivity. }
  assert (Hnames : map fst opened
            = map fst (caches w) ++
              (if has_cache ServiceWorker.CACHE_NAME (caches w) then []
               else [ServiceWorker.CACHE_NAME])).
  { subst opened. destruct (has_cache _ (caches w)).
    - by rewrite app_nil_r.
    - by rewrite map_app. }
  assert (Hother : ∀ name, name ≠ ServiceWorker.CACHE_NAME →
            cache_named name opened = cache_named name (caches w)).
  { intros name Hne. subst opened. destruct (has_cache _ (caches w)); [done |].
    by apply cache_named_app_other. }
  destruct (all_accepted outcomes) as [responses |].
  - rewrite has_cache_update_cache, map_fst_update_cache.
    split; [done |]. split; [done |].
    intros name Hne. rewrite cache_named_update_other by done. by apply Hother.
  - done.
Qed.

(** Precaching is all or nothing. When one of the requests of
    [urlsToCache] is rejected or answered outside 200-299 (or with 206),
    installation succeeds all the same and nothing is cached: every
    request finds in the caches what it found before, also for the URLs
    whose response had arrived. *)
Theorem failed_precache_caches_nothing w outcomes :
  (send_each (map request_of ServiceWorker.urlsToCache) w).1 = Ok outcomes →
  all_accepted outcomes = None →
  ∃ w', ServiceWorker.on_install w = (Ok tt, w') ∧
        ∀ query, caches_match query (caches w') = caches_match query (caches w).
Proof.
  intros Hsent Hnone.
  destruct (on_install_run w) as (outcomes' & Hsame & Hrun).
  rewrite (Hsame w eq_refl) in Hsent. simpl in Hsent. injection Hsent as ->.
  eexists. split; [exact Hrun |]. simpl. rewrite Hnone. intros query.
  destruct (has_cache _ (caches w)); [done |]. apply caches_match_app_empty.
Qed.

Lemma urlsToCache_distinct : NoDup ServiceWorker.urlsToCache.
Proof. apply (bool_decide_unpack _). by vm_compute. Qed.

Lemma caches_match_current query f r cs :
  has_cache ServiceWorker.CACHE_NAME cs = true →
  (∀ c, cache_match query (f c) = Some r) →
  caches_match query
    (List.filter (fun c => String.eqb c.1 ServiceWorker.CACHE_NAME)
                 (update_cache ServiceWorker.CACHE_NAME f cs)) = Some r.
Proof.
  intros Hhas Hf. induction cs as [| [n c] cs IH]; [done |].
  simpl in *. destruct (String.eqb_spec n ServiceWorker.CACHE_NAME) as [-> | Hn].
  - simpl. by rewrite Hf.
  - simpl. apply String.eqb_neq in Hn. rewrite Hn. by apply IH.
Qed.

Lemma all_accepted_length outcomes responses :
  all_accepted outcomes = Some responses →
  List.length responses = List.length outcomes.
Proof.
  revert responses. induction outcomes as [| o outcomes IH]; intros responses; simpl.
  - by intros [= <-].
  - destruct (accepted o); [| done].
    destruct (all_accepted outcomes) as [rs |]; [| done].
    intros [= <-]. simpl. f_equal. by apply IH.
Qed.

Lemma on_fetch_caches request w :
  caches (ServiceWorker.on_fetch request w).2 = caches w.
Proof.
  unfold ServiceWorker.on_fetch, sbind, sget, worker_fetch, sbind, send.
  destruct (caches_match request (caches w)); [done |].
  by destruct (network _ _).
Qed.

Lemma after_fetches_caches requests w :
  caches (ServiceWorker.after_fetches requests w) = caches w.
Proof.
  revert w. induction requests as [| request requests IH]; intros w; [done |].
  simpl. rewrite IH. apply on_fetch_caches.
Qed.

Lemma on_fetch_hit request w r :
  caches_match request (caches w) = Some r →
  ServiceWorker.on_fetch request w = (Ok r, w).
Proof.
  intros Hhit. unfold ServiceWorker.on_fetch, sbind, sget. by rewrite Hhit.
Qed.

(** The [fetch] listener never caches. Whatever requests it has served, the
    caches are what they were; so a request that the caches do not match
    is sent to the network every time, however often it was answered
    before, and when the network rejects it the page gets the rejection:
    there is no fallback. *)
Theorem fetch_never_caches requests request w :
  caches_match request (caches w) = None →
  let w' := ServiceWorker.after_fetches requests w in
  caches w' = caches w ∧
  ServiceWorker.on_fetch request w'
  = (match network (worker_log w') request with
     | Answer a => Ok a
     | Rejected => Throw NetworkError
     end,
     Worker (caches w) (worker_log w' ++ [request])).
Proof.
  intros Hmiss w'. pose proof (after_fetches_caches requests w) as Hc.
  fold w' in Hc. split; [exact Hc |].
  unfold ServiceWorker.on_fetch, sbind at 1, sget. rewrite Hc, Hmiss.
  unfold worker_fetch, sbind, send. rewrite Hc.
  by destruct (network _ _).
Qed.

Lemma delete_unlisted names w :
  foldr (fun cacheName rest =>
           (if ServiceWorker.not_listed cacheName
            then caches_delete cacheName ~~ sret tt
            else sret tt) ~~ rest)
        (sret tt) names w
  = (Ok tt,
     Worker (List.filter
               (fun c => negb (ServiceWorker.not_listed c.1
                               && existsb (String.eqb c.1) names))
               (caches w))
            (worker_log w)).
Proof.
  revert w. induction names as [| name names IH]; intros w.
  - simpl. unfold sret. f_equal. destruct w as [cs lg]. simpl. f_equal.
    symmetry. erewrite List.filter_ext; [apply filter_true |].
    intros c. simpl. by rewrite andb_false_r.
  - simpl. unfold sbind at 1.
    destruct (ServiceWorker.not_listed name) eqn:Hname.
    + unfold sbind at 1, caches_delete, sbind at 1, sget, sbind at 1, smodify, sret.
      rewrite IH. simpl. f_equal. f_equal. rewrite filter_twice.
      apply List.filter_ext. intros c.
      destruct (String.eqb_spec c.1 name) as [-> | Hc]; simpl.
      * by rewrite Hname.
      * done.
    + unfold sret at 1. rewrite IH. f_equal. f_equal.
      apply List.filter_ext. intros c.
      destruct (String.eqb_spec c.1 name) as [-> | Hc]; simpl; [| done].
      by rewrite Hname.
Qed.

Lemma activate_current_run w :
  ∃ w', ServiceWorker.on_activate w = (Ok tt, w') ∧
        caches w'
        = List.filter (fun c => String.eqb c.1 ServiceWorker.CACHE_NAME) (caches w).
Proof.
  unfold ServiceWorker.on_activate, sbind at 1, caches_keys, sbind at 1, sget, sret.
  rewrite delete_unlisted. eexists. split; [reflexivity |]. simpl.
  apply List.filter_ext_in. intros c Hin.
  assert (Hex : existsb (String.eqb c.1) (map fst (caches w)) = true).
  { apply existsb_exists. exists c.1. split; [| apply String.eqb_refl].
    apply in_map_iff. by exists c. }
  rewrite Hex, andb_true_r. unfold ServiceWorker.not_listed. simpl.
  by rewrite orb_false_r, negb_involutive.
Qed.

(** Activation keeps the caches named 'planner-v1' as they are and deletes
    every other cache of the origin, whoever created it; it sends
    nothing. *)
Theorem activate_keeps_current w :
  ∃ w', ServiceWorker.on_activate w = (Ok tt, w') ∧
        worker_log w' = worker_log w ∧
        caches w'
        = List.filter (fun c => String.eqb c.1 ServiceWorker.CACHE_NAME) (caches w) ∧
        cache_named ServiceWorker.CACHE_NAME (caches w')
        = cache_named ServiceWorker.CACHE_NAME (caches w) ∧
        ∀ name, name ≠ ServiceWorker.CACHE_NAME →
                cache_named name (caches w') = None.
Proof.
  destruct (activate_current_run w) as (w' & Hrun & Hcaches).
  exists w'. split; [exact Hrun |].
  assert (Hlog : worker_log w' = worker_log w).
  { revert Hrun.
    unfold ServiceWorker.on_activate, sbind at 1, caches_keys, sbind at 1, sget, sret.
    rewrite delete_unlisted. by intros [= <-]. }
  split; [exact Hlog |]. split; [exact Hcaches |]. rewrite Hcaches.
  split; [apply cache_named_filter_same |].
  intros name Hne. by apply cache_named_filter_other.
Qed.

(** The precached pages work offline. When every request of [urlsToCache]
    is answered in 200-299 (not 206) during installation, then after
    installation and activation, and after any series of [fetch] events,
    a [GET] of a precached URL is answered with the response fetched at
    installation, without a request to the network, whatever state the
    network is in and whatever the caches held before. *)
Theorem precached_served_offline w outcomes responses :
  (send_each (map request_of ServiceWorker.urlsToCache) w).1 = Ok outcomes →
  all_accepted outcomes = Some responses →
  ∃ w1 w2,
    ServiceWorker.on_install w = (Ok tt, w1) ∧
    ServiceWorker.on_activate w1 = (Ok tt, w2) ∧
    ∀ requests i url r,
      ServiceWorker.urlsToCache !! i = Some url →
      responses !! i = Some r →
      let w3 := ServiceWorker.after_fetches requests w2 in
      ServiceWorker.on_fetch (request_of url) w3 = (Ok r, w3).
Proof.
  intros Hsent Hall.
  destruct (on_install_run w) as (outcomes' & Hsame & Hrun).
  rewrite (Hsame w eq_refl) in Hsent. simpl in Hsent. injection Hsent as ->.
  rewrite Hall in Hrun.
  destruct (activate_current_run
              (Worker (update_cache ServiceWorker.CACHE_NAME
                 (fun c => foldl (fun c entry => cache_put entry c) c
                    (zip (map request_of ServiceWorker.urlsToCache) responses))
                 (if has_cache ServiceWorker.CACHE_NAME (caches w) then caches w
                  else caches w ++ [(ServiceWorker.CACHE_NAME, [])]))
                 (worker_log w ++ map request_of ServiceWorker.urlsToCache)))
    as (w2 & Hact & Hcaches).
  eexists _, w2. split; [exact Hrun |]. split; [exact Hact |].
  intros requests i url r Hi Hr w3. apply on_fetch_hit.
  subst w3. rewrite after_fetches_caches, Hcaches. cbn [caches].
  apply caches_match_current.
  - destruct (has_cache _ (caches w)) eqn:Hc; [done |].
    rewrite has_cache_app, Hc. reflexivity.
  - intros c. cbv beta.
    by apply (cache_match_puts _ _ _ i); [apply urlsToCache_distinct | |].
Qed.

End Worker.

(** ** Instances of the service worker's properties *)

Lemma failed_precache_caches_nothing_witness :
  ∃ w', @ServiceWorker.on_install (network_until 2 (Response 200 None))
          upgraded_worker = (Ok tt, w') ∧
        ∀ query, caches_match query (caches w')
                 = caches_match query (caches upgraded_worker).
Proof.
  apply (@failed_precache_caches_nothing (network_until 2 (Response 200 None))
           upgraded_worker
           [ Answer (Response 200 None); Answer (Response 200 None);
             Rejected; Rejected ]);
    reflexivity.
Defined.

Lemma fetch_never_caches_witness :
  let script := request_of "/digital-planner/app.js" in
  let w' := @ServiceWorker.after_fetches
              (constant_network (Answer (Response 200 None)))
              [script; script] new_worker in
  caches w' = [] ∧
  @ServiceWorker.on_fetch (constant_network (Answer (Response 200 None))) script w'
  = (Ok (Response 200 None), Worker [] [script; script; script]).
Proof.
  intros script.
  apply (@fetch_never_caches (constant_network (Answer (Response 200 None)))
           [script; script] script new_worker).
  reflexivity.
Defined.

Lemma precached_served_offline_witness :
  ∃ w1 w2,
    @ServiceWorker.on_install (network_until 4 (Response 200 None)) upgraded_worker
    = (Ok tt, w1) ∧
    @ServiceWorker.on_activate w1 = (Ok tt, w2) ∧
    ∀ requests i url r,
      ServiceWorker.urlsToCache !! i = Some url →
      [ Response 200 None; Response 200 None;
        Response 200 None; Response 200 None ] !! i = Some r →
      let w3 := @ServiceWorker.after_fetches (network_until 4 (Response 200 None))
                  requests w2 in
      @ServiceWorker.on_fetch (network_until 4 (Response 200 None))
         (request_of url) w3 = (Ok r, w3).
Proof.
  apply (@precached_served_offline (network_until 4 (Response 200 None))
           upgraded_worker
           [ Answer (Response 200 None); Answer (Response 200 None);
             Answer (Response 200 None); Answer (Response 200 None) ]);
    reflexivity.
Defined.
